(** * FairyFun: capacitive-proximity light controller (src/src/main.cpp)

    A shallow embedding of the sketch's global and function-static
    variables as one [State] record, of each C++ function as a Rocq
    function on that record, and the properties of the baseline
    estimator, the touch test, the proximity averager and the two
    light behaviours.

    Target: SAMD21 (ARM Cortex-M0+).  [int] is 32 bits, two's
    complement; [unsigned long] (the result of [millis()]) is 32 bits.
    Values are carried as [Z]; every arithmetic result is brought back
    into range with [to_int] / [to_ulong], division is C++'s truncating
    [/] ([Z.quot]) and [%] is [Z.rem].  An array store whose index
    leaves the array has no defined result and is modelled by [None]. *)

From Stdlib Require Import ZArith Lia List Bool Sorted.
From stdpp Require Import base tactics option list.
Import ListNotations.
Local Open Scope Z_scope.

(** ** Machine integers *)

Definition INT_MIN : Z := -2147483648.
Definition INT_MAX : Z := 2147483647.
Definition WORD : Z := 4294967296.

(** Conversion to [int]: the identity on representable values, reduction
    modulo 2^32 into [INT_MIN .. INT_MAX] otherwise. *)
Definition to_int (z : Z) : Z :=
  if (INT_MIN <=? z) && (z <=? INT_MAX) then z
  else (z + 2147483648) mod WORD - 2147483648.

(** Conversion to [unsigned long]. *)
Definition to_ulong (z : Z) : Z := z mod WORD.

Definition in_int (z : Z) : Prop := INT_MIN <= z <= INT_MAX.

(** ** Sensor samples

    The only value [loop] hands to [baseAvg] is [qt_1.measure()] (lines
    288 and 293).  The FreeTouch driver declares it
    [uint16_t measure(void)] (Adafruit_FreeTouch.h, a library header that
    is not part of the sketch), so a sample lies in 0 .. 65535. *)
Definition UINT16_MAX : Z := 65535.
Definition is_sample (r : Z) : Prop := 0 <= r <= UINT16_MAX.

(** ** Constants of the sketch (the [#define]s) *)

Definition NUM_BASELINE : Z := 5000.
Definition SPREAD : Z := 63.
Definition BASELINE_TIME : Z := 5000.
Definition LIGHT_ON_TIME : Z := 30000.
Definition DEBUG_CLEAR_TIME : Z := 30000.
Definition NUM_MEAS : Z := 50.
Definition MIN_OVER_THRESHOLD : Z := 3.
Definition NUM_LIGHT_STEPS : Z := 150.
Definition MINUMUM_BRIGHTNESS : Z := 10.

(** ** Program state

    Globals and function statics, under their source names.
    [touchTime] is the static of [loop]; it is [None] until the first
    call runs its initialiser.  [noodle] is the sequence of values handed
    to [analogWrite(NOODLE_PIN, _)], newest first. *)

Record State : Type := mkState {
  base_readings : list Z;
  base_ct : Z;
  qt_base : Z;
  qt_Threshold : Z;
  touchTime : option Z;
  measSet : list Z;
  measCount : Z;
  avgMeasure : Z;
  lastLightMeasure : Z;
  steps : Z;
  direction : bool;
  debugging : bool;
  noodle : list Z
}.

Definition set_base (s : State) (a : list Z) (ct : Z) : State :=
  mkState a ct (qt_base s) (qt_Threshold s) (touchTime s) (measSet s)
    (measCount s) (avgMeasure s) (lastLightMeasure s) (steps s)
    (direction s) (debugging s) (noodle s).

Definition set_qt_base (s : State) (b : Z) : State :=
  mkState (base_readings s) (base_ct s) b (qt_Threshold s) (touchTime s)
    (measSet s) (measCount s) (avgMeasure s) (lastLightMeasure s) (steps s)
    (direction s) (debugging s) (noodle s).

Definition set_qt_Threshold (s : State) (t : Z) : State :=
  mkState (base_readings s) (base_ct s) (qt_base s) t (touchTime s)
    (measSet s) (measCount s) (avgMeasure s) (lastLightMeasure s) (steps s)
    (direction s) (debugging s) (noodle s).

Definition set_touchTime (s : State) (t : Z) : State :=
  mkState (base_readings s) (base_ct s) (qt_base s) (qt_Threshold s) (Some t)
    (measSet s) (measCount s) (avgMeasure s) (lastLightMeasure s) (steps s)
    (direction s) (debugging s) (noodle s).

Definition set_meas (s : State) (a : list Z) (ct avg : Z) : State :=
  mkState (base_readings s) (base_ct s) (qt_base s) (qt_Threshold s)
    (touchTime s) a ct avg (lastLightMeasure s) (steps s)
    (direction s) (debugging s) (noodle s).

Definition set_lastLightMeasure (s : State) (v : Z) : State :=
  mkState (base_readings s) (base_ct s) (qt_base s) (qt_Threshold s)
    (touchTime s) (measSet s) (measCount s) (avgMeasure s) v (steps s)
    (direction s) (debugging s) (noodle s).

Definition set_pulse (s : State) (n : Z) (d : bool) : State :=
  mkState (base_readings s) (base_ct s) (qt_base s) (qt_Threshold s)
    (touchTime s) (measSet s) (measCount s) (avgMeasure s)
    (lastLightMeasure s) n d (debugging s) (noodle s).

(** [analogWrite(NOODLE_PIN, v)]. *)
Definition analogWrite (s : State) (v : Z) : State :=
  mkState (base_readings s) (base_ct s) (qt_base s) (qt_Threshold s)
    (touchTime s) (measSet s) (measCount s) (avgMeasure s)
    (lastLightMeasure s) (steps s) (direction s) (debugging s)
    (v :: noodle s).

(** ** Arrays *)

(** [a[i] = v] on a fixed-size array. *)
Definition array_set (a : list Z) (i v : Z) : option (list Z) :=
  if (0 <=? i) && (i <? Z.of_nat (length a))
  then Some (<[Z.to_nat i := v]> a) else None.

(** [int sum = 0; for (i = 0; i < N; i++) sum += a[i];] over the whole
    array, the accumulator being an [int]. *)
Definition array_sum (a : list Z) : Z :=
  fold_left (fun sum x => to_int (sum + x)) a 0.

(** The mathematical sum, for stating what [array_sum] computes. *)
Definition Zsum (a : list Z) : Z := fold_right Z.add 0 a.

(** ** The sketch *)

(** Initial values of the globals and statics, before [setup]. *)
Definition boot : State :=
  mkState (replicate (Z.to_nat NUM_BASELINE) 0) 0 725 (725 + SPREAD) None
    (replicate (Z.to_nat NUM_MEAS) 0) 0 0 0 0 true true [].

(** [setup]: the loop of lines 246-249 seeds every baseline slot with
    [qt_base].  (Serial output and pin configuration are not modelled.) *)
Definition setup (s : State) : State :=
  set_base s (replicate (length (base_readings s)) (qt_base s)) (base_ct s).

Definition started : State := setup boot.

(** [baseAvg]. *)
Definition baseAvg (s : State) (reading : Z) : option (State * Z) :=
  let ct := to_int (base_ct s + 1) in
  a ← array_set (base_readings s) (ct `rem` NUM_BASELINE) reading;
  Some (set_base s a ct, array_sum a `quot` NUM_BASELINE).

(** [addMeasurement].  (The periodic "Avg:" print is not modelled.) *)
Definition addMeasurement (s : State) (measurement : Z) : option (State * Z) :=
  let ct := to_int (measCount s + 1) in
  a ← array_set (measSet s) (ct `rem` NUM_MEAS) measurement;
  let avg := array_sum a `quot` NUM_MEAS in
  Some (set_meas s a ct avg, avg).

(** [lightAtNear]. *)
Definition lightAtNear (s : State) (measurement : Z) : option State :=
  if to_int (qt_base s + MIN_OVER_THRESHOLD) <? measurement then
    '(s1, avg) ← addMeasurement s measurement;
    let s2 := set_lastLightMeasure s1 (to_int (avg - qt_base s1)) in
    if to_int (qt_base s2 + MIN_OVER_THRESHOLD) <? avg
    then Some (analogWrite s2 (lastLightMeasure s2))
    else Some s2
  else
    '(s1, avg) ← addMeasurement s 0;
    let closingValue := to_int (avg - qt_base s1) in
    let closingValue :=
      if lastLightMeasure s1 <? closingValue then lastLightMeasure s1
      else closingValue in
    let closingValue := if closingValue <? 0 then 0 else closingValue in
    if to_int (qt_base s1 - MIN_OVER_THRESHOLD) <? avg
    then Some (analogWrite s1 closingValue)
    else Some (analogWrite s1 0).

(** [lightAtStep]. *)
Definition lightAtStep (s : State) : State :=
  let d := if NUM_LIGHT_STEPS <=? steps s then false else direction s in
  let d := if steps s <=? 0 then true else d in
  let n := if d then to_int (steps s + 1) else to_int (steps s - 1) in
  analogWrite (set_pulse s n d)
    (to_int (to_int ((255 - MINUMUM_BRIGHTNESS) * n) `quot` NUM_LIGHT_STEPS
             + MINUMUM_BRIGHTNESS)).

(** [checkDebug]: the unconditional [return] of line 489 comes first, so
    nothing after it runs. *)
Definition checkDebug (s : State) (touchTime : Z) : State := s.

(** What one call of [loop] gets from its collaborators: the sensor
    sample of line 288 and the result of each [millis()] call that the
    iteration may make (the static initialiser of line 286, then lines
    311, 317 and 328). *)
Record Tick : Type := mkTick {
  measure : Z;
  millis_init : Z;
  millis_touch : Z;
  millis_settle : Z;
  millis_mode : Z
}.

(** The branch an iteration of [loop] ends in. *)
Inductive Mode : Type := Settling | Pulsing | ProximityGlow.

(** The touch test of line 303, [qt1 >= qt_Threshold], as a function of
    the baseline from which line 294 computes [qt_Threshold]. *)
Definition isTouch (reading baseline : Z) : bool :=
  to_int (baseline + SPREAD) <=? reading.

(** The value of the static [touchTime] once initialised. *)
Definition touchTime_val (s : State) : Z := default 0 (touchTime s).

(** The static [touchTime] of [loop] on entry: its value if an earlier
    call initialised it, else the initialiser of line 286,
    [millis() - DEBUG_CLEAR_TIME] converted to [int]. *)
Definition touchTime_init (s : State) (i : Tick) : Z :=
  match touchTime s with
  | Some t => t
  | None => to_int (to_ulong (to_ulong (millis_init i) - DEBUG_CLEAR_TIME))
  end.

(** [loop], lines 286-312: the static initialiser of [touchTime], the
    sample, the baseline and threshold update and the touch test.
    Returns the state and whether the test of line 303 held. *)
Definition loop_sense (s : State) (i : Tick) : option (State * bool) :=
  let s0 := set_touchTime s (touchTime_init s i) in
  let qt1 := to_int (measure i) in
  '(s1, b) ← baseAvg s0 qt1;
  let s2 := set_qt_base s1 b in
  let s3 := set_qt_Threshold s2 (to_int (qt_base s2 + SPREAD)) in
  if qt_Threshold s3 <=? qt1
  then Some (set_touchTime (checkDebug s3 (touchTime_val s3))
               (to_int (to_ulong (millis_touch i))), true)
  else Some (s3, false).

(** [loop], lines 317-337: the settling window, then the choice between
    the two light behaviours.  Returns the state and the branch taken. *)
Definition loop_light (s : State) (i : Tick) (qt1 : Z)
  : option (State * Mode) :=
  if to_ulong (millis_settle i) <? BASELINE_TIME then Some (s, Settling)
  else if to_ulong (to_ulong (millis_mode i) - to_ulong (touchTime_val s))
          <? LIGHT_ON_TIME
  then Some (lightAtStep s, Pulsing)
  else s' ← lightAtNear s qt1; Some (s', ProximityGlow).

(** [loop].  Next to the new state it reports whether the touch test of
    line 303 held and which branch the iteration ended in.  (Serial
    output and [delay] are not modelled.) *)
Definition loop (s : State) (i : Tick) : option (State * (bool * Mode)) :=
  '(s4, touch) ← loop_sense s i;
  '(s5, m) ← loop_light s4 i (to_int (measure i));
  Some (s5, (touch, m)).

(** ** Runs *)

(** Consecutive iterations of [loop], with what each reports. *)
Fixpoint run (s : State) (ins : list Tick)
  : option (State * list (bool * Mode)) :=
  match ins with
  | [] => Some (s, [])
  | i :: r =>
      '(s1, e) ← loop s i;
      '(s2, es) ← run s1 r;
      Some (s2, e :: es)
  end.

(** Consecutive calls of [baseAvg], with the value each returns. *)
Fixpoint feed (s : State) (rs : list Z) : option (State * list Z) :=
  match rs with
  | [] => Some (s, [])
  | r :: rest =>
      '(s1, b) ← baseAvg s r;
      '(s2, bs) ← feed s1 rest;
      Some (s2, b :: bs)
  end.

(** [n] consecutive calls of [lightAtStep]. *)
Definition pulse (n : nat) (s : State) : State := Nat.iter n lightAtStep s.

(** The value most recently handed to [analogWrite]. *)
Definition written (s : State) : Z := hd 0 (noodle s).

(** An iteration at uptime [t] ms in which every [millis()] call returns
    [t], with sensor sample [r]; and the iterations for a list of samples
    at the sketch's pace of one per 10 ms ([delay(10)]), the first at
    uptime 0. *)
Definition tick_at (t r : Z) : Tick := mkTick r t t t t.

Definition paced_from (k : Z) (rs : list Z) : list Tick :=
  imap (fun j r => tick_at (10 * (k + Z.of_nat j)) r) rs.

Definition paced (rs : list Z) : list Tick := paced_from 0 rs.

(** The values written by [n] calls of [lightAtStep] from [s], oldest
    first. *)
Definition pulse_writes (n : nat) (s : State) : list Z :=
  rev (take n (noodle (pulse n s))).

(** Array sizes as declared, and the two call counters as [loop] keeps
    them: [addMeasurement] is called at most once per [baseAvg] call. *)
Definition wf (s : State) : Prop :=
  length (base_readings s) = Z.to_nat NUM_BASELINE /\
  length (measSet s) = Z.to_nat NUM_MEAS /\
  0 <= measCount s <= base_ct s.

(** The same iteration with another sensor sample. *)
Definition with_measure (r : Z) (i : Tick) : Tick :=
  mkTick r (millis_init i) (millis_touch i) (millis_settle i) (millis_mode i).

(** Frames: the variables of the light behaviours, and those of the
    sensing half of [loop]. *)
Definition same_light (s s' : State) : Prop :=
  measSet s' = measSet s /\ measCount s' = measCount s /\
  avgMeasure s' = avgMeasure s /\ lastLightMeasure s' = lastLightMeasure s /\
  steps s' = steps s /\ direction s' = direction s /\
  debugging s' = debugging s /\ noodle s' = noodle s.

Definition same_sense (s s' : State) : Prop :=
  base_readings s' = base_readings s /\ base_ct s' = base_ct s /\
  qt_base s' = qt_base s /\ qt_Threshold s' = qt_Threshold s /\
  touchTime s' = touchTime s.

(** A phase of consecutive ProximityGlow iterations, seen from
    [lightAtNear]: between two of its calls the sensing half of [loop]
    runs, and of what that half changes [lightAtNear] reads only
    [qt_base].  Each call is given as the pair of the baseline stored by
    that iteration and its sample. *)
Fixpoint glow (s : State) (calls : list (Z * Z)) : option State :=
  match calls with
  | [] => Some s
  | (b, m) :: r => s' ← lightAtNear (set_qt_base s b) m; glow s' r
  end.

(** The slots written by the last [k] calls of [addMeasurement] hold 0. *)
Definition zeroed (k : Z) (buf : list Z) (ct : Z) : Prop :=
  forall i : nat, (i < 50)%nat -> (ct - Z.of_nat i) mod NUM_MEAS < k ->
    buf !! i = Some 0.

(** Consecutive calls of [addMeasurement], with the value each returns. *)
Fixpoint feed_meas (s : State) (ms : list Z) : option (State * list Z) :=
  match ms with
  | [] => Some (s, [])
  | m :: rest =>
      '(s1, a) ← addMeasurement s m;
      '(s2, avgs) ← feed_meas s1 rest;
      Some (s2, a :: avgs)
  end.

(** What a circular buffer of [n] slots holds when each call writes slot
    (call count mod [n]) and the count has reached [ct]: the value written
    [j] calls ago, [j] < [n], is in slot ([ct] - [j]) mod [n].  [vals]
    lists the values written so far, newest first. *)
Definition window (n : Z) (vals buf : list Z) (ct : Z) : Prop :=
  forall j : nat, Z.of_nat j < n -> (j < length vals)%nat ->
    buf !! Z.to_nat ((ct - Z.of_nat j) mod n) = vals !! j.

(** The step reached after [k] calls of [lightAtStep] from step 0: up
    from 0 to [NUM_LIGHT_STEPS], down again, with period
    [2 * NUM_LIGHT_STEPS]. *)
Definition triangle (k : Z) : Z :=
  let r := k mod (2 * NUM_LIGHT_STEPS) in
  if r <=? NUM_LIGHT_STEPS then r else 2 * NUM_LIGHT_STEPS - r.

(** The state within the range [0 .. B] of the sensor: array sizes and
    counters as [wf] has them, the buffers, the baseline and everything
    written so far between 0 and [B], the retained brightness at most
    [B], the pulse step within its range. *)
Definition ranged (B : Z) (s : State) : Prop :=
  wf s /\
  Forall (fun v => 0 <= v <= B) (base_readings s) /\
  0 <= qt_base s <= B /\
  Forall (fun v => 0 <= v <= B) (measSet s) /\
  lastLightMeasure s <= B /\
  0 <= steps s <= NUM_LIGHT_STEPS /\
  Forall (fun w => 0 <= w <= B) (noodle s).

(** The number of Pulsing iterations among those a run reports. *)
Definition is_pulsing (m : Mode) : bool :=
  match m with Pulsing => true | _ => false end.

Definition pulsing_count (es : list (bool * Mode)) : nat :=
  length (List.filter (fun e => is_pulsing e.2) es).

(** * Properties *)

(** ** Machine integers *)

Lemma to_int_mod (z : Z) : to_int z = (z + 2147483648) mod WORD - 2147483648.
Proof.
  unfold to_int, INT_MIN, INT_MAX, WORD.
  destruct (Z.leb_spec (-2147483648) z); simpl; [|reflexivity].
  destruct (Z.leb_spec z 2147483647); simpl; [|reflexivity].
  rewrite Z.mod_small by lia. lia.
Qed.

Lemma to_int_id (z : Z) : in_int z -> to_int z = z.
Proof.
  unfold in_int, to_int. intros [H1 H2].
  apply Z.leb_le in H1, H2. now rewrite H1, H2.
Qed.

Lemma to_int_range (z : Z) : in_int (to_int z).
Proof.
  rewrite to_int_mod. unfold in_int, INT_MIN, INT_MAX, WORD.
  pose proof (Z.mod_pos_bound (z + 2147483648) 4294967296). lia.
Qed.

Lemma to_int_add_l (a b : Z) : to_int (to_int a + b) = to_int (a + b).
Proof.
  rewrite (to_int_mod (to_int a + b)), (to_int_mod a), (to_int_mod (a + b)).
  f_equal.
  replace ((a + 2147483648) mod WORD - 2147483648 + b + 2147483648)
    with ((a + 2147483648) mod WORD + b) by lia.
  rewrite Zplus_mod_idemp_l. f_equal. lia.
Qed.

Lemma to_ulong_to_int (z : Z) : to_ulong (to_int z) = to_ulong z.
Proof.
  rewrite to_int_mod. unfold to_ulong, WORD.
  rewrite Zminus_mod_idemp_l. f_equal. lia.
Qed.

Lemma to_ulong_range (z : Z) : 0 <= to_ulong z < WORD.
Proof. apply Z.mod_pos_bound. reflexivity. Qed.

(** ** Arrays *)

Lemma Zsum_app (a b : list Z) : Zsum (a ++ b) = Zsum a + Zsum b.
Proof. induction a as [|x a IH]; simpl; [reflexivity|]. rewrite IH. lia. Qed.

Lemma Zsum_replicate (n : nat) (x : Z) : Zsum (replicate n x) = Z.of_nat n * x.
Proof. induction n as [|n IH]; [reflexivity|]. simpl Zsum. rewrite IH. lia. Qed.

Lemma array_sum_from (a : list Z) (acc : Z) :
  fold_left (fun sum x => to_int (sum + x)) a (to_int acc)
  = to_int (acc + Zsum a).
Proof.
  revert acc. induction a as [|x a IH]; intros acc; simpl.
  - f_equal. lia.
  - rewrite to_int_add_l, IH. f_equal. lia.
Qed.

(** The [int] accumulator holds the true sum reduced into [int]. *)
Lemma array_sum_spec (a : list Z) : array_sum a = to_int (Zsum a).
Proof. apply (array_sum_from a 0). Qed.

Lemma array_set_Some (a : list Z) (i v : Z) :
  0 <= i < Z.of_nat (length a) ->
  array_set a i v = Some (<[Z.to_nat i := v]> a).
Proof.
  intros [H1 H2]. unfold array_set.
  apply Z.leb_le in H1. apply Z.ltb_lt in H2. now rewrite H1, H2.
Qed.

Lemma array_set_length (a a' : list Z) (i v : Z) :
  array_set a i v = Some a' -> length a' = length a.
Proof.
  unfold array_set. destruct (_ && _); [|discriminate].
  intros [= <-]. apply length_insert.
Qed.

(** ** The pulse animation *)

Lemma lightAtStep_up (s : State) :
  0 <= steps s < NUM_LIGHT_STEPS -> direction s = true \/ steps s = 0 ->
  steps (lightAtStep s) = steps s + 1 /\
  direction (lightAtStep s) = true /\
  noodle (lightAtStep s) = (245 * (steps s + 1)) `quot` 150 + 10 :: noodle s.
Proof.
  unfold NUM_LIGHT_STEPS. intros Hr Hd. unfold lightAtStep, NUM_LIGHT_STEPS.
  destruct (Z.leb_spec 150 (steps s)); [lia|].
  assert (Hdir : (if steps s <=? 0 then true else direction s) = true).
  { destruct (Z.leb_spec (steps s) 0); [reflexivity|].
    destruct Hd; [assumption|lia]. }
  rewrite Hdir. simpl.
  unfold MINUMUM_BRIGHTNESS.
  rewrite (to_int_id (steps s + 1)) by (unfold in_int, INT_MIN, INT_MAX; lia).
  rewrite (to_int_id ((255 - 10) * _)) by (unfold in_int, INT_MIN, INT_MAX; lia).
  assert (0 <= ((255 - 10) * (steps s + 1)) `quot` 150 <= 245).
  { split; [apply Z.quot_pos; lia|].
    apply Z.quot_le_upper_bound; lia. }
  rewrite to_int_id by (unfold in_int, INT_MIN, INT_MAX; lia).
  repeat split; reflexivity.
Qed.

Lemma lightAtStep_down (s : State) :
  0 < steps s <= NUM_LIGHT_STEPS ->
  direction s = false \/ steps s = NUM_LIGHT_STEPS ->
  steps (lightAtStep s) = steps s - 1 /\
  direction (lightAtStep s) = false /\
  noodle (lightAtStep s) = (245 * (steps s - 1)) `quot` 150 + 10 :: noodle s.
Proof.
  unfold NUM_LIGHT_STEPS. intros Hr Hd. unfold lightAtStep, NUM_LIGHT_STEPS.
  assert (Hdir : (if 150 <=? steps s then false else direction s) = false).
  { destruct (Z.leb_spec 150 (steps s)); [reflexivity|].
    destruct Hd; [assumption|lia]. }
  rewrite Hdir.
  destruct (Z.leb_spec (steps s) 0); [lia|]. simpl.
  unfold MINUMUM_BRIGHTNESS.
  rewrite (to_int_id (steps s - 1)) by (unfold in_int, INT_MIN, INT_MAX; lia).
  rewrite (to_int_id ((255 - 10) * _)) by (unfold in_int, INT_MIN, INT_MAX; lia).
  assert (0 <= ((255 - 10) * (steps s - 1)) `quot` 150 <= 245).
  { split; [apply Z.quot_pos; lia|].
    apply Z.quot_le_upper_bound; lia. }
  rewrite to_int_id by (unfold in_int, INT_MIN, INT_MAX; lia).
  repeat split; reflexivity.
Qed.

Lemma pulse_S (n : nat) (s : State) : pulse (S n) s = lightAtStep (pulse n s).
Proof. reflexivity. Qed.

Lemma pulse_add (n m : nat) (s : State) :
  pulse (n + m) s = pulse n (pulse m s).
Proof. apply Nat.iter_add. Qed.

(** One call keeps [steps] in range, whatever [direction] holds. *)
Lemma lightAtStep_steps_range (s : State) :
  0 <= steps s <= NUM_LIGHT_STEPS ->
  0 <= steps (lightAtStep s) <= NUM_LIGHT_STEPS.
Proof.
  intros Hr.
  destruct (Z.eq_dec (steps s) 0) as [H0|H0].
  - destruct (lightAtStep_up s) as (E & _); unfold NUM_LIGHT_STEPS in *; lia.
  - destruct (Z.eq_dec (steps s) NUM_LIGHT_STEPS) as [Hm|Hm].
    + destruct (lightAtStep_down s) as (E & _); unfold NUM_LIGHT_STEPS in *;
        auto; lia.
    + destruct (direction s) eqn:Hd.
      * destruct (lightAtStep_up s) as (E & _);
          unfold NUM_LIGHT_STEPS in *; auto; lia.
      * destruct (lightAtStep_down s) as (E & _);
          unfold NUM_LIGHT_STEPS in *; auto; lia.
Qed.

Lemma pulse_steps_range (n : nat) (s : State) :
  0 <= steps s <= NUM_LIGHT_STEPS ->
  0 <= steps (pulse n s) <= NUM_LIGHT_STEPS.
Proof.
  intros Hr. induction n as [|n IH]; [exact Hr|].
  rewrite pulse_S. now apply lightAtStep_steps_range.
Qed.

(** Every value [lightAtStep] writes is a brightness byte, at least
    [MINUMUM_BRIGHTNESS]. *)
Lemma lightAtStep_written_range (s : State) :
  0 <= steps s <= NUM_LIGHT_STEPS ->
  exists v, noodle (lightAtStep s) = v :: noodle s /\
            MINUMUM_BRIGHTNESS <= v <= 255.
Proof.
  intros Hr. pose proof (lightAtStep_steps_range s Hr) as Hr'.
  unfold NUM_LIGHT_STEPS, MINUMUM_BRIGHTNESS in *.
  assert (Hq : forall k, 0 <= k <= 150 -> 10 <= (245 * k) `quot` 150 + 10 <= 255).
  { intros k Hk. split.
    - pose proof (Z.quot_pos (245 * k) 150). lia.
    - pose proof (Z.quot_le_upper_bound (245 * k) 150 245). lia. }
  assert (Hcase : (0 <= steps s < 150 /\ (direction s = true \/ steps s = 0))
                  \/ (0 < steps s <= 150 /\ (direction s = false \/ steps s = 150))).
  { destruct (direction s); lia. }
  destruct Hcase as [[H1 H2]|[H1 H2]].
  - destruct (lightAtStep_up s H1 H2) as (E & _ & W).
    eexists. split; [exact W|]. apply Hq. lia.
  - destruct (lightAtStep_down s H1 H2) as (E & _ & W).
    eexists. split; [exact W|]. apply Hq. lia.
Qed.

(** Rising half: after [k] calls, [1 <= k <= 150], the step is [k]. *)
Lemma pulse_up (s : State) (k : nat) :
  steps s = 0 -> (k < 150)%nat ->
  steps (pulse (S k) s) = Z.of_nat (S k) /\
  direction (pulse (S k) s) = true /\
  written (pulse (S k) s) = (245 * Z.of_nat (S k)) `quot` 150 + 10.
Proof.
  intros H0. induction k as [|k IH]; intros Hk.
  - destruct (lightAtStep_up s) as (E & D & W);
      [unfold NUM_LIGHT_STEPS; lia | now right |].
    change (pulse 1 s) with (lightAtStep s). unfold written.
    rewrite E, D, W, H0. repeat split; reflexivity.
  - destruct IH as (E & D & _); [lia|].
    destruct (lightAtStep_up (pulse (S k) s)) as (E' & D' & W');
      [unfold NUM_LIGHT_STEPS; lia | now left |].
    rewrite (pulse_S (S k)). unfold written. rewrite E', D', W', E.
    cbn [hd].
    replace (Z.of_nat (S (S k))) with (Z.of_nat (S k) + 1) by lia.
    repeat split; reflexivity.
Qed.

(** Falling half: after [150 + k] calls, [k <= 150], the step is
    [150 - k]. *)
Lemma pulse_down (s : State) (k : nat) :
  steps s = 0 -> (k <= 150)%nat ->
  steps (pulse (150 + k) s) = 150 - Z.of_nat k /\
  ((1 <= k)%nat -> direction (pulse (150 + k) s) = false) /\
  written (pulse (150 + k) s) = (245 * (150 - Z.of_nat k)) `quot` 150 + 10.
Proof.
  intros H0. induction k as [|k IH]; intros Hk.
  - destruct (pulse_up s 149 H0) as (E & D & W); [lia|].
    change (150 + 0)%nat with 150%nat. rewrite E, W.
    repeat split; try reflexivity. lia.
  - destruct IH as (E & D & _); [lia|].
    replace (150 + S k)%nat with (S (150 + k)) by lia.
    destruct (lightAtStep_down (pulse (150 + k) s)) as (E' & D' & W').
    { unfold NUM_LIGHT_STEPS; lia. }
    { destruct k; [right; rewrite E; reflexivity | left; apply D; lia]. }
    rewrite pulse_S. unfold written. rewrite E', W', E.
    cbn [hd].
    replace (150 - Z.of_nat (S k)) with (150 - Z.of_nat k - 1) by lia.
    repeat split; try reflexivity. intros _; exact D'.
Qed.

(** Two states that agree on [steps] and [direction] pulse alike. *)
Lemma pulse_same (a b : State) (n : nat) :
  steps a = steps b -> direction a = direction b ->
  steps (pulse n a) = steps (pulse n b) /\
  direction (pulse n a) = direction (pulse n b) /\
  ((1 <= n)%nat -> written (pulse n a) = written (pulse n b)).
Proof.
  intros Hs Hd. induction n as [|n IH].
  - repeat split; try assumption. lia.
  - destruct IH as (Es & Ed & _). rewrite !pulse_S.
    unfold lightAtStep, written. simpl. rewrite Es, Ed.
    repeat split; reflexivity.
Qed.

(** From step 0 the stored [direction] does not matter. *)
Lemma pulse_from_zero (a b : State) (n : nat) :
  steps a = 0 -> steps b = 0 ->
  written (pulse (S n) a) = written (pulse (S n) b).
Proof.
  intros Ha Hb.
  replace (S n) with (n + 1)%nat by lia. rewrite !pulse_add.
  change (pulse 1 a) with (lightAtStep a).
  change (pulse 1 b) with (lightAtStep b).
  destruct (lightAtStep_up a) as (Ea & Da & Wa);
    [unfold NUM_LIGHT_STEPS; lia | now right |].
  destruct (lightAtStep_up b) as (Eb & Db & Wb);
    [unfold NUM_LIGHT_STEPS; lia | now right |].
  destruct n as [|n].
  - change (pulse 0 (lightAtStep a)) with (lightAtStep a).
    change (pulse 0 (lightAtStep b)) with (lightAtStep b).
    unfold written. rewrite Wa, Wb, Ha, Hb. reflexivity.
  - apply pulse_same; [lia | congruence | lia].
Qed.

Lemma bright_strict (i j : Z) :
  0 <= i < j -> (245 * i) `quot` 150 < (245 * j) `quot` 150.
Proof.
  intros H. rewrite !Z.quot_div_nonneg by lia.
  apply Z.lt_le_trans with ((245 * i + 150) / 150).
  - replace (245 * i + 150) with (245 * i + 1 * 150) by lia.
    rewrite Z.div_add by lia. lia.
  - apply Z.div_le_mono; lia.
Qed.

(** ** The baseline estimator *)

Lemma rem_index (ct n : Z) : 0 <= ct -> 0 < n -> 0 <= ct `rem` n < n.
Proof.
  intros Hc Hn. rewrite Z.rem_mod_nonneg by lia. apply Z.mod_pos_bound; lia.
Qed.

(** One call of [baseAvg], while the call counter has not overflowed:
    slot [(base_ct + 1) % NUM_BASELINE] is overwritten and the value
    returned is the [int]-reduced sum of the buffer over [NUM_BASELINE]. *)
Lemma baseAvg_spec (s : State) (reading : Z) :
  length (base_readings s) = Z.to_nat NUM_BASELINE ->
  0 <= base_ct s < INT_MAX ->
  baseAvg s reading =
    Some (set_base s
            (<[Z.to_nat ((base_ct s + 1) `rem` NUM_BASELINE) := reading]>
               (base_readings s))
            (base_ct s + 1),
          to_int (Zsum (<[Z.to_nat ((base_ct s + 1) `rem` NUM_BASELINE)
                          := reading]> (base_readings s)))
            `quot` NUM_BASELINE).
Proof.
  intros Hlen Hct. unfold baseAvg.
  rewrite (to_int_id (base_ct s + 1))
    by (unfold in_int, INT_MIN, INT_MAX in *; lia).
  rewrite array_set_Some.
  - cbn [mbind option_bind]. rewrite array_sum_spec. reflexivity.
  - rewrite Hlen. pose proof (rem_index (base_ct s + 1) NUM_BASELINE).
    unfold NUM_BASELINE in *. lia.
Qed.

Lemma insert_after_head (x0 y r : Z) (before rest : list Z) :
  <[S (length before) := r]> (x0 :: before ++ y :: rest)
  = x0 :: before ++ r :: rest.
Proof.
  cbn. f_equal. induction before as [|b before IH]; [reflexivity|].
  cbn. f_equal. exact IH.
Qed.

Lemma feed_app (s : State) (l1 l2 : list Z) :
  feed s (l1 ++ l2) =
    '(s1, b1) ← feed s l1; '(s2, b2) ← feed s1 l2; Some (s2, b1 ++ b2).
Proof.
  revert s. induction l1 as [|r l1 IH]; intros s.
  - cbn. destruct (feed s l2) as [[s2 b2]|]; reflexivity.
  - cbn [app feed]. destruct (baseAvg s r) as [[s1 b]|]; [|reflexivity].
    cbn [mbind option_bind]. rewrite IH.
    destruct (feed s1 l1) as [[s1' b1]|]; [|reflexivity].
    cbn [mbind option_bind].
    destruct (feed s1' l2) as [[s2 b2]|]; reflexivity.
Qed.

(** Calls [k+1 .. k+n] from call count [k] fill slots [k+1 .. k+n], as
    long as they stay below the end of the buffer. *)
Lemma feed_fill (rs : list Z) :
  forall (s : State) (x0 : Z) (before rest : list Z),
    base_readings s = x0 :: before ++ rest ->
    base_ct s = Z.of_nat (length before) ->
    (length rs <= length rest)%nat ->
    length (base_readings s) = Z.to_nat NUM_BASELINE ->
    exists s' bs,
      feed s rs = Some (s', bs) /\
      base_readings s' = x0 :: before ++ rs ++ drop (length rs) rest /\
      base_ct s' = base_ct s + Z.of_nat (length rs) /\
      length bs = length rs.
Proof.
  induction rs as [|r rs IH]; intros s x0 before rest Hb Hct Hle Hlen.
  - exists s, []. cbn. rewrite drop_0. repeat split; [assumption | lia].
  - destruct rest as [|y rest]; [cbn in Hle; lia|].
    assert (Hk : Z.of_nat (length before) + 1 < NUM_BASELINE).
    { rewrite Hb in Hlen. cbn in Hlen. rewrite length_app in Hlen.
      cbn in Hlen. unfold NUM_BASELINE in *. lia. }
    cbn [feed]. rewrite baseAvg_spec
      by (try assumption; unfold NUM_BASELINE, INT_MAX in *; lia).
    cbn [mbind option_bind].
    set (s1 := set_base s _ _).
    assert (Hb1 : base_readings s1 = x0 :: (before ++ [r]) ++ rest).
    { subst s1. cbn [base_readings set_base]. rewrite Hb, Hct.
      rewrite Z.rem_small by (unfold NUM_BASELINE in *; lia).
      replace (Z.to_nat (Z.of_nat (length before) + 1))
        with (S (length before)) by lia.
      rewrite insert_after_head, <- app_assoc. reflexivity. }
    destruct (IH s1 x0 (before ++ [r]) rest Hb1) as (s' & bs & F & B & C & L).
    + subst s1. cbn [base_ct set_base]. rewrite Hct, length_app. cbn. lia.
    + cbn in Hle. lia.
    + subst s1. cbn [base_readings set_base]. rewrite length_insert.
      exact Hlen.
    + rewrite F. cbn [mbind option_bind]. eexists s', _.
      split; [reflexivity|]. repeat split.
      * rewrite B, <- app_assoc. reflexivity.
      * rewrite C. subst s1. cbn [base_ct set_base length]. lia.
      * cbn. now rewrite L.
Qed.

(** Exactly [NUM_BASELINE] calls from call count 0 overwrite every slot
    (slot 0 last), and the last call returns the [int]-reduced sum of the
    readings over [NUM_BASELINE]. *)
Lemma feed_full (s : State) (rs : list Z) :
  length (base_readings s) = Z.to_nat NUM_BASELINE ->
  base_ct s = 0 ->
  length rs = Z.to_nat NUM_BASELINE ->
  exists s' bs,
    feed s rs = Some (s', bs) /\
    length bs = Z.to_nat NUM_BASELINE /\
    last bs = Some (to_int (Zsum rs) `quot` NUM_BASELINE) /\
    Zsum (base_readings s') = Zsum rs.
Proof.
  intros Hlen Hct Hrs.
  destruct (base_readings s) as [|x0 rest] eqn:Hb;
    [cbn in Hlen; unfold NUM_BASELINE in Hlen; lia|].
  assert (Hrest : length rest = 4999%nat).
  { cbn in Hlen. unfold NUM_BASELINE in Hlen. lia. }
  assert (Hsplit : exists pre r, rs = pre ++ [r] /\ length pre = 4999%nat).
  { exists (take 4999 rs).
    destruct (drop 4999 rs) as [|r [|r' tl]] eqn:Hd.
    - apply (f_equal length) in Hd. rewrite length_drop in Hd.
      unfold NUM_BASELINE in Hrs. cbn in Hd. lia.
    - exists r. rewrite <- Hd, take_drop, length_take.
      unfold NUM_BASELINE in Hrs. split; [reflexivity | lia].
    - apply (f_equal length) in Hd. rewrite length_drop in Hd.
      unfold NUM_BASELINE in Hrs. cbn in Hd. lia. }
  destruct Hsplit as (pre & r & -> & Ht). clear Hrs.
  destruct (feed_fill pre s x0 [] rest) as (s1 & bs1 & F & B & C & L).
  { exact Hb. } { rewrite Hct. reflexivity. }
  { lia. } { rewrite Hb. exact Hlen. }
  rewrite Ht, (drop_ge rest 4999), app_nil_r in B by lia. cbn [app] in B.
  rewrite Ht, Hct in C.
  assert (Hlen1 : length (base_readings s1) = Z.to_nat NUM_BASELINE).
  { rewrite B. cbn [length]. rewrite Ht. reflexivity. }
  rewrite feed_app, F. cbn [mbind option_bind feed].
  rewrite baseAvg_spec
    by (try assumption; rewrite C; unfold INT_MAX; lia).
  cbn [mbind option_bind]. eexists _, _. split; [reflexivity|].
  assert (Hsum : Zsum (<[Z.to_nat ((base_ct s1 + 1) `rem` NUM_BASELINE) := r]>
                        (base_readings s1)) = Zsum (pre ++ [r])).
  { rewrite C, B. change ((0 + Z.of_nat 4999 + 1) `rem` NUM_BASELINE) with 0.
    change (<[Z.to_nat 0 := r]> (x0 :: pre)) with (r :: pre).
    rewrite Zsum_app. unfold Zsum. cbn [fold_right]. lia. }
  repeat split.
  - rewrite length_app, L, Ht. reflexivity.
  - rewrite last_snoc. rewrite Hsum. reflexivity.
  - cbn [base_readings set_base]. exact Hsum.
Qed.

(** ** The proximity averager and [lightAtNear] *)

Lemma addMeasurement_spec (s : State) (m : Z) :
  length (measSet s) = Z.to_nat NUM_MEAS ->
  0 <= measCount s < INT_MAX ->
  addMeasurement s m =
    Some (set_meas s
            (<[Z.to_nat ((measCount s + 1) `rem` NUM_MEAS) := m]> (measSet s))
            (measCount s + 1)
            (to_int (Zsum (<[Z.to_nat ((measCount s + 1) `rem` NUM_MEAS) := m]>
                             (measSet s))) `quot` NUM_MEAS),
          to_int (Zsum (<[Z.to_nat ((measCount s + 1) `rem` NUM_MEAS) := m]>
                          (measSet s))) `quot` NUM_MEAS).
Proof.
  intros Hlen Hct. unfold addMeasurement.
  rewrite (to_int_id (measCount s + 1))
    by (unfold in_int, INT_MIN, INT_MAX in *; lia).
  rewrite array_set_Some.
  - cbn [mbind option_bind]. rewrite array_sum_spec. reflexivity.
  - rewrite Hlen. pose proof (rem_index (measCount s + 1) NUM_MEAS).
    unfold NUM_MEAS in *. lia.
Qed.

(** [lightAtNear] returns, and touches nothing but the averager, the
    retained brightness and the LED. *)
Lemma lightAtNear_frame (s : State) (m : Z) :
  length (measSet s) = Z.to_nat NUM_MEAS ->
  0 <= measCount s < INT_MAX ->
  exists s', lightAtNear s m = Some s' /\
    same_sense s s' /\
    steps s' = steps s /\ direction s' = direction s /\
    debugging s' = debugging s /\
    length (measSet s') = Z.to_nat NUM_MEAS /\
    measCount s' = measCount s + 1.
Proof.
  intros Hlen Hct. unfold lightAtNear.
  destruct (_ <? m);
    rewrite addMeasurement_spec by assumption;
    cbn [mbind option_bind]; cbv zeta;
    match goal with
    | |- context [if ?c then Some _ else Some _] => destruct c
    end;
    (eexists; split; [reflexivity|]); unfold same_sense;
    cbn; rewrite length_insert; repeat split; assumption.
Qed.

(** [lightAtStep] touches nothing but its two statics and the LED. *)
Lemma lightAtStep_frame (s : State) :
  same_sense s (lightAtStep s) /\
  measSet (lightAtStep s) = measSet s /\
  measCount (lightAtStep s) = measCount s /\
  avgMeasure (lightAtStep s) = avgMeasure s /\
  lastLightMeasure (lightAtStep s) = lastLightMeasure s /\
  debugging (lightAtStep s) = debugging s.
Proof. unfold same_sense. repeat split; reflexivity. Qed.

(** ** The loop *)

(** The sensing half of [loop]. *)
Lemma loop_sense_spec (s : State) (i : Tick) :
  length (base_readings s) = Z.to_nat NUM_BASELINE ->
  0 <= base_ct s < INT_MAX ->
  exists s4 touch,
    loop_sense s i = Some (s4, touch) /\
    baseAvg s (to_int (measure i)) =
      Some (set_base s (base_readings s4) (base_ct s4), qt_base s4) /\
    base_ct s4 = base_ct s + 1 /\
    qt_Threshold s4 = to_int (qt_base s4 + SPREAD) /\
    touch = isTouch (to_int (measure i)) (qt_base s4) /\
    touchTime s4 =
      Some (if touch then to_int (to_ulong (millis_touch i))
            else touchTime_init s i) /\
    same_light s s4.
Proof.
  intros Hlen Hct. unfold loop_sense.
  rewrite baseAvg_spec by assumption.
  rewrite (baseAvg_spec s) by assumption.
  cbn [mbind option_bind qt_base set_qt_base qt_Threshold set_qt_Threshold
       base_ct base_readings set_touchTime set_base].
  match goal with |- context [if ?c then _ else _] => destruct c eqn:Ht end;
    (eexists _, _; split; [reflexivity|]);
    unfold same_light, isTouch; cbn; rewrite ?Ht; repeat split; reflexivity.
Qed.

(** The light half of [loop] returns and leaves the sensing variables
    alone. *)
Lemma loop_light_defined (s : State) (i : Tick) (qt1 : Z) :
  length (measSet s) = Z.to_nat NUM_MEAS ->
  0 <= measCount s < INT_MAX ->
  exists s' m,
    loop_light s i qt1 = Some (s', m) /\
    same_sense s s' /\
    length (measSet s') = Z.to_nat NUM_MEAS /\
    measCount s <= measCount s' <= measCount s + 1.
Proof.
  intros Hlen Hct. unfold loop_light.
  destruct (_ <? BASELINE_TIME).
  - exists s, Settling. unfold same_sense. repeat split; try assumption; lia.
  - destruct (_ <? LIGHT_ON_TIME).
    + exists (lightAtStep s), Pulsing.
      destruct (lightAtStep_frame s) as (F & M & C & _).
      rewrite M, C. split; [reflexivity|]. split; [exact F|].
      split; [assumption | lia].
    + destruct (lightAtNear_frame s qt1 Hlen Hct) as (s' & E & F & _ & _ & _ & L & C).
      rewrite E. cbn [mbind option_bind]. exists s', ProximityGlow.
      split; [reflexivity|]. split; [exact F|].
      split; [assumption | lia].
Qed.

(** An iteration of [loop] returns as long as [base_ct] can still be
    incremented, and keeps the state well formed. *)
Lemma loop_step (s : State) (i : Tick) :
  wf s -> base_ct s < INT_MAX ->
  exists s4 touch s' m,
    loop_sense s i = Some (s4, touch) /\
    loop_light s4 i (to_int (measure i)) = Some (s', m) /\
    loop s i = Some (s', (touch, m)) /\
    wf s' /\ base_ct s' = base_ct s + 1 /\ same_sense s4 s'.
Proof.
  intros (Hb & Hm & Hc) Hct.
  destruct (loop_sense_spec s i Hb) as (s4 & touch & E & A & C & _ & _ & _ & L);
    [lia|].
  destruct L as (L1 & L2 & _).
  destruct (loop_light_defined s4 i (to_int (measure i)))
    as (s' & m & E' & F & Lm & Cm); [congruence | rewrite L2; lia |].
  exists s4, touch, s', m.
  split; [exact E|]. split; [exact E'|].
  split; [unfold loop; rewrite E; cbn [mbind option_bind]; rewrite E';
          reflexivity|].
  pose proof F as (F1 & F2 & _).
  split; [|split; [rewrite F2, C; reflexivity | exact F]].
  unfold wf. split; [|split; [exact Lm|]].
  - rewrite F1.
    rewrite baseAvg_spec in A by (assumption || lia).
    injection A as A1 A2 A3. rewrite <- A1, length_insert. exact Hb.
  - rewrite F2, C. lia.
Qed.

Lemma run_app (s : State) (l1 l2 : list Tick) :
  run s (l1 ++ l2) =
    '(s1, e1) ← run s l1; '(s2, e2) ← run s1 l2; Some (s2, e1 ++ e2).
Proof.
  revert s. induction l1 as [|i l1 IH]; intros s.
  - cbn. destruct (run s l2) as [[s2 e2]|]; reflexivity.
  - cbn [app run]. destruct (loop s i) as [[s1 e]|]; [|reflexivity].
    cbn [mbind option_bind]. rewrite IH.
    destruct (run s1 l1) as [[s1' e1]|]; [|reflexivity].
    cbn [mbind option_bind].
    destruct (run s1' l2) as [[s2 e2]|]; reflexivity.
Qed.

(** A run returns as long as [base_ct] does not overflow. *)
Lemma run_defined (ins : list Tick) :
  forall s, wf s -> base_ct s + Z.of_nat (length ins) <= INT_MAX ->
    exists s' es, run s ins = Some (s', es) /\ wf s' /\
      base_ct s' = base_ct s + Z.of_nat (length ins) /\
      length es = length ins.
Proof.
  induction ins as [|i ins IH]; intros s Hwf Hct.
  - exists s, []. cbn. repeat split; try apply Hwf; lia.
  - cbn [length] in Hct.
    destruct (loop_step s i Hwf) as (s4 & t & s1 & m & _ & _ & E & Hwf1 & C & _);
      [lia|].
    destruct (IH s1 Hwf1) as (s' & es & R & Hwf' & C' & L); [lia|].
    exists s', ((t, m) :: es). cbn [run]. rewrite E. cbn [mbind option_bind].
    rewrite R. cbn [mbind option_bind length].
    repeat split; try apply Hwf'; lia.
Qed.

Lemma wf_started : wf started.
Proof. unfold wf. repeat split; vm_compute; congruence. Qed.

(** The sum of a buffer of samples fits the [int] accumulator. *)
Lemma Zsum_samples (l : list Z) :
  Forall is_sample l -> 0 <= Zsum l <= Z.of_nat (length l) * UINT16_MAX.
Proof.
  unfold is_sample, UINT16_MAX.
  induction 1 as [|x l Hx Hl IH]; [cbn; lia|].
  change (Zsum (x :: l)) with (x + Zsum l). cbn [length]. lia.
Qed.

Lemma samples_fit (l : list Z) :
  length l = Z.to_nat NUM_BASELINE -> Forall is_sample l -> in_int (Zsum l).
Proof.
  intros Hlen Hall. pose proof (Zsum_samples l Hall) as Hs.
  rewrite Hlen in Hs. change (Z.of_nat (Z.to_nat NUM_BASELINE)) with 5000 in Hs.
  unfold in_int, INT_MIN, INT_MAX, UINT16_MAX in *. lia.
Qed.

(** * The claims *)

(** ** Baseline estimator *)



(** ** Touch classification *)

(** C8.  [isTouch] is monotonic in the reading: a reading above one that
    counts as a touch, against the same baseline, counts as a touch. *)
Theorem isTouch_monotone (b r1 r2 : Z) :
  isTouch r1 b = true -> r1 < r2 -> isTouch r2 b = true.
Proof.
  unfold isTouch. intros H1 H2. apply Z.leb_le in H1. apply Z.leb_le. lia.
Qed.

Lemma isTouch_monotone_witness :
  isTouch 800 725 = true /\ 800 < 900 /\ isTouch 900 725 = true.
Proof.
  split; [reflexivity|]. split; [lia|].
  apply (isTouch_monotone 725 800 900); [reflexivity | lia].
Defined.

(** ** Pulsing *)

(** C9.  Starting from step 0, [steps] stays within
    [0 .. NUM_LIGHT_STEPS] after any number of calls of [lightAtStep]. *)
Theorem pulse_steps_invariant (s : State) (n : nat) :
  steps s = 0 -> 0 <= steps (pulse n s) <= NUM_LIGHT_STEPS.
Proof.
  intros H0. apply pulse_steps_range. rewrite H0. unfold NUM_LIGHT_STEPS. lia.
Qed.

Lemma pulse_steps_invariant_witness :
  0 <= steps (pulse 400 started) <= NUM_LIGHT_STEPS.
Proof. apply (pulse_steps_invariant started 400). reflexivity. Defined.

(** C4 (as amended).  From the state after [setup], the first call of
    [lightAtStep] writes 11 and the 150th writes 255; the 300th writes 10,
    the floor [MINUMUM_BRIGHTNESS], with step back at 0; 11 is written by
    the 299th and the 301st call. *)
Theorem pulse_scenario :
  written (pulse 1 started) = 11 /\
  written (pulse 150 started) = 255 /\
  written (pulse 299 started) = 11 /\
  written (pulse 300 started) = 10 /\
  steps (pulse 300 started) = 0 /\
  written (pulse 301 started) = 11.
Proof. vm_compute. repeat split; reflexivity. Qed.

(** C4 as stated fails at the 300th call, which writes 10, not 11. *)
Lemma pulse_300_not_11 : written (pulse 300 started) <> 11.
Proof. vm_compute. discriminate. Qed.

(** In [loop], only the Pulsing branch moves the pulse state, and it
    moves it and writes as [lightAtStep] does from the pulse state alone. *)
Lemma loop_pulse_state (s : State) (i : Tick) :
  wf s -> base_ct s < INT_MAX ->
  exists s' touch m,
    loop s i = Some (s', (touch, m)) /\
    if m is Pulsing
    then steps s' = steps (lightAtStep s) /\
         direction s' = direction (lightAtStep s) /\
         noodle s' = written (lightAtStep s) :: noodle s
    else steps s' = steps s /\ direction s' = direction s.
Proof.
  intros Hwf Hct.
  destruct (loop_step s i Hwf Hct) as (s4 & t & s' & m & E & E' & El & _ & _ & _).
  destruct (loop_sense_spec s i) as (s4' & t' & E2 & _ & _ & _ & _ & _ & L);
    [apply Hwf | destruct Hwf as (_ & _ & ?); lia |].
  rewrite E in E2. injection E2 as <- <-.
  destruct L as (L1 & L2 & L3 & L4 & L5 & L6 & L7 & L8).
  exists s', t, m. split; [exact El|].
  unfold loop_light in E'.
  destruct (_ <? BASELINE_TIME).
  { injection E' as <- <-. auto. }
  destruct (_ <? LIGHT_ON_TIME).
  { injection E' as <- <-.
    destruct (pulse_same s4 s 1 L5 L6) as (A & B & C).
    change (pulse 1 s4) with (lightAtStep s4) in *.
    change (pulse 1 s) with (lightAtStep s) in *.
    repeat split; try assumption.
    rewrite <- C by lia. unfold written, lightAtStep. cbn. now rewrite L8. }
  destruct (lightAtNear_frame s4 (to_int (measure i)))
    as (s5 & E5 & _ & F1 & F2 & _).
  { destruct Hwf as (_ & Hm & _). congruence. }
  { destruct Hwf as (_ & _ & ?). rewrite L2. lia. }
  rewrite E5 in E'. cbn [mbind option_bind] in E'. injection E' as <- <-.
  split; congruence.
Qed.

(** C5.  From step 0 the values written by consecutive calls of
    [lightAtStep] form a triangle wave: strictly increasing over calls
    1..150, strictly decreasing over calls 150..300, always between
    [MINUMUM_BRIGHTNESS] and 255, and repeating with period
    [2 * NUM_LIGHT_STEPS] = 300 calls.  The sequence is the same from every
    state whose step is 0, whatever the sensor variables hold; and in
    [loop] the pulse state moves only in the Pulsing branch, where it moves
    and writes as [lightAtStep] does from the pulse state alone. *)
Theorem pulse_triangle_wave (s : State) (H0 : steps s = 0) :
  (forall i j : nat, (1 <= i < j)%nat -> (j <= 150)%nat ->
      written (pulse i s) < written (pulse j s)) /\
  (forall i j : nat, (150 <= i < j)%nat -> (j <= 300)%nat ->
      written (pulse j s) < written (pulse i s)) /\
  (forall k : nat, (1 <= k)%nat ->
      MINUMUM_BRIGHTNESS <= written (pulse k s) <= 255) /\
  (forall k : nat, (1 <= k)%nat ->
      written (pulse (k + 300) s) = written (pulse k s)) /\
  (forall s' : State, steps s' = 0 ->
      forall k : nat, (1 <= k)%nat ->
        written (pulse k s') = written (pulse k s)) /\
  (forall (t : State) (i : Tick), wf t -> base_ct t < INT_MAX ->
      exists t' touch m,
        loop t i = Some (t', (touch, m)) /\
        if m is Pulsing
        then steps t' = steps (lightAtStep t) /\
             direction t' = direction (lightAtStep t) /\
             noodle t' = written (lightAtStep t) :: noodle t
        else steps t' = steps t /\ direction t' = direction t).
Proof.
  split; [|split; [|split; [|split; [|split]]]].
  - intros [|i] [|j] Hij Hj; try lia.
    destruct (pulse_up s i H0) as (_ & _ & Wi); [lia|].
    destruct (pulse_up s j H0) as (_ & _ & Wj); [lia|].
    rewrite Wi, Wj. pose proof (bright_strict (Z.of_nat (S i)) (Z.of_nat (S j))).
    lia.
  - intros i j Hij Hj.
    destruct (pulse_down s (i - 150) H0) as (_ & _ & Wi); [lia|].
    destruct (pulse_down s (j - 150) H0) as (_ & _ & Wj); [lia|].
    replace (150 + (i - 150))%nat with i in Wi by lia.
    replace (150 + (j - 150))%nat with j in Wj by lia.
    rewrite Wi, Wj.
    pose proof (bright_strict (150 - Z.of_nat (j - 150))
                  (150 - Z.of_nat (i - 150))).
    lia.
  - intros [|k] Hk; [lia|]. rewrite pulse_S.
    destruct (lightAtStep_written_range (pulse k s)) as (v & W & R).
    { apply pulse_steps_range. rewrite H0. unfold NUM_LIGHT_STEPS. lia. }
    unfold written. rewrite W. exact R.
  - intros [|k] Hk; [lia|]. rewrite pulse_add.
    apply pulse_from_zero; [|exact H0].
    destruct (pulse_down s 150 H0) as (E & _); [lia|]. exact E.
  - intros s' H0' [|k] Hk; [lia|]. now apply pulse_from_zero.
  - intros t i. apply loop_pulse_state.
Qed.

Lemma pulse_triangle_wave_witness :
  written (pulse 3 started) < written (pulse 7 started) /\
  written (pulse 200 started) < written (pulse 160 started) /\
  MINUMUM_BRIGHTNESS <= written (pulse 5 started) <= 255 /\
  written (pulse (5 + 300) started) = written (pulse 5 started) /\
  written (pulse 5 (lightAtStep (pulse 299 started)))
  = written (pulse 5 started) /\
  exists t' touch m, loop started (tick_at 0 725) = Some (t', (touch, m)).
Proof.
  destruct (pulse_triangle_wave started eq_refl) as (A & B & C & D & E & F).
  split; [apply A; lia|]. split; [apply B; lia|]. split; [apply C; lia|].
  split; [apply D; lia|]. split; [apply E; [reflexivity | lia]|].
  destruct (F started (tick_at 0 725)) as (t' & touch & m & L & _).
  - unfold wf. repeat split; vm_compute; congruence.
  - vm_compute. reflexivity.
  - exists t', touch, m. exact L.
Defined.

(** ** The control loop *)

(** One iteration of [loop] on a well-formed state, in full: it returns;
    the baseline is the one [baseAvg] computes from the sample; the
    threshold is recomputed from it; the touch flag is [isTouch]; the
    timestamp is overwritten exactly on a touch; the branch is decided by
    the settling test and then the elapsed-time test against the timestamp
    as just updated. *)
Lemma loop_spec (s : State) (i : Tick) :
  wf s -> base_ct s < INT_MAX ->
  exists s' touch m,
    loop s i = Some (s', (touch, m)) /\
    wf s' /\ base_ct s' = base_ct s + 1 /\
    baseAvg s (to_int (measure i)) =
      Some (set_base s (base_readings s') (base_ct s'), qt_base s') /\
    qt_Threshold s' = to_int (qt_base s' + SPREAD) /\
    touch = isTouch (to_int (measure i)) (qt_base s') /\
    touchTime s' =
      Some (if touch then to_int (to_ulong (millis_touch i))
            else touchTime_init s i) /\
    m = (if to_ulong (millis_settle i) <? BASELINE_TIME then Settling
         else if to_ulong (to_ulong (millis_mode i)
                           - to_ulong (touchTime_val s')) <? LIGHT_ON_TIME
              then Pulsing else ProximityGlow) /\
    (m = Settling -> same_light s s').
Proof.
  intros Hwf Hct.
  destruct (loop_step s i Hwf Hct)
    as (s4 & t & s' & m & E & E' & El & Hwf' & C & F).
  destruct (loop_sense_spec s i) as (s4' & t' & E2 & A & C4 & T & I & TT & L);
    [apply Hwf | destruct Hwf as (_ & _ & ?); lia |].
  rewrite E in E2. injection E2 as <- <-.
  destruct F as (F1 & F2 & F3 & F4 & F5).
  exists s', t, m. split; [exact El|]. split; [exact Hwf'|].
  split; [exact C|]. rewrite F1, F2, F3, F4, F5.
  split; [exact A|]. split; [exact T|]. split; [exact I|].
  split; [exact TT|].
  assert (Hv : touchTime_val s' = touchTime_val s4)
    by (unfold touchTime_val; now rewrite F5).
  rewrite Hv. unfold loop_light in E'.
  destruct (_ <? BASELINE_TIME).
  { injection E' as <- <-. split; [reflexivity|]. intros _. exact L. }
  destruct (_ <? LIGHT_ON_TIME).
  { injection E' as <- <-. split; [reflexivity | discriminate]. }
  destruct (lightAtNear s4 _); [|discriminate].
  cbn [mbind option_bind] in E'. injection E' as <- <-.
  split; [reflexivity | discriminate].
Qed.

(** C7 (as amended).  On an iteration whose [millis()] at line 317 is
    below [BASELINE_TIME], [loop] ends in the settling branch: neither
    light behaviour runs, nothing is written to the LED, and the pulse
    state, the averager and the retained brightness are unchanged.  The
    sensing half has run before: the baseline buffer, its counter, the
    baseline and the threshold are updated, and the touch timestamp is
    overwritten when the sample meets the threshold. *)
Theorem settling_tick (s : State) (i : Tick) :
  wf s -> base_ct s < INT_MAX ->
  to_ulong (millis_settle i) < BASELINE_TIME ->
  exists s' touch,
    loop s i = Some (s', (touch, Settling)) /\
    same_light s s' /\
    baseAvg s (to_int (measure i)) =
      Some (set_base s (base_readings s') (base_ct s'), qt_base s') /\
    qt_Threshold s' = to_int (qt_base s' + SPREAD) /\
    touch = isTouch (to_int (measure i)) (qt_base s') /\
    touchTime s' =
      Some (if touch then to_int (to_ulong (millis_touch i))
            else touchTime_init s i).
Proof.
  intros Hwf Hct Hs.
  destruct (loop_spec s i Hwf Hct)
    as (s' & t & m & E & _ & _ & A & T & I & TT & M & L).
  apply Z.ltb_lt in Hs. rewrite Hs in M. subst m.
  exists s', t. auto 10.
Qed.

Lemma settling_tick_witness :
  exists s' touch,
    loop started (tick_at 100 725) = Some (s', (touch, Settling)) /\
    same_light started s'.
Proof.
  destruct (settling_tick started (tick_at 100 725))
    as (s' & touch & E & L & _).
  - unfold wf. repeat split; vm_compute; congruence.
  - vm_compute. reflexivity.
  - vm_compute. reflexivity.
  - exists s', touch. split; [exact E | exact L].
Defined.

(** C7 as stated fails: a settling iteration does change state other
    than the baseline.  After a first iteration at 0 ms with sample 725,
    the iteration at 10 ms with sample 800 ends in the settling branch and
    has moved the touch timestamp from -30000 to 10. *)
Lemma settling_tick_moves_touchTime :
  exists s1 s2,
    run started (paced [725]) = Some (s1, [(false, Settling)]) /\
    loop s1 (tick_at 10 800) = Some (s2, (true, Settling)) /\
    to_ulong (millis_settle (tick_at 10 800)) < BASELINE_TIME /\
    touchTime s1 = Some (-30000) /\
    touchTime s2 = Some 10.
Proof.
  destruct (run started (paced [725])) as [[s1 e1]|] eqn:R;
    vm_compute in R; [|discriminate].
  injection R as <- <-.
  eexists _, _. split; [reflexivity|].
  split; [vm_compute; reflexivity|].
  split; [vm_compute; reflexivity|].
  split; reflexivity.
Qed.

(** *** Runs at the seed value *)

(** With every baseline slot at 725, a sample of 725 leaves the buffer,
    the baseline (725) and the threshold (788) as they are and is not a
    touch. *)
Lemma steady_tick (s : State) (i : Tick) :
  wf s -> base_ct s < INT_MAX ->
  base_readings s = replicate (Z.to_nat NUM_BASELINE) 725 ->
  to_int (measure i) = 725 ->
  exists s' m,
    loop s i = Some (s', (false, m)) /\
    wf s' /\ base_ct s' = base_ct s + 1 /\
    base_readings s' = replicate (Z.to_nat NUM_BASELINE) 725 /\
    qt_base s' = 725 /\ qt_Threshold s' = 788 /\
    touchTime s' = Some (touchTime_init s i) /\
    m = (if to_ulong (millis_settle i) <? BASELINE_TIME then Settling
         else if to_ulong (to_ulong (millis_mode i)
                           - to_ulong (touchTime_init s i)) <? LIGHT_ON_TIME
              then Pulsing else ProximityGlow).
Proof.
  intros Hwf Hct Hrep Hm.
  destruct (loop_spec s i Hwf Hct)
    as (s' & t & m & E & Hwf' & C & A & T & I & TT & M & _).
  rewrite Hm in *.
  rewrite baseAvg_spec in A
    by (try apply Hwf; destruct Hwf as (_ & _ & ?); lia).
  injection A as A1 A2 A3.
  rewrite Hrep, insert_replicate in A1.
  rewrite Hrep, insert_replicate, Zsum_replicate in A3.
  change (to_int (Z.of_nat (Z.to_nat NUM_BASELINE) * 725) `quot` NUM_BASELINE)
    with 725 in A3.
  rewrite <- A3 in *. change (isTouch 725 725) with false in I. subst t.
  assert (Hv : touchTime_val s' = touchTime_init s i)
    by (unfold touchTime_val; now rewrite TT).
  rewrite Hv in M.
  exists s', m. repeat split; try assumption; try apply Hwf'; auto.
Qed.

Lemma touchTime_init_Some (s : State) (i : Tick) (tt : Z) :
  touchTime s = Some tt -> touchTime_init s i = tt.
Proof. unfold touchTime_init. now intros ->. Qed.

Lemma steady_run (ins : list Tick) :
  forall (s : State) (tt : Z),
    wf s -> base_ct s + Z.of_nat (length ins) <= INT_MAX ->
    base_readings s = replicate (Z.to_nat NUM_BASELINE) 725 ->
    qt_base s = 725 -> qt_Threshold s = 788 ->
    touchTime s = Some tt ->
    Forall (fun i => to_int (measure i) = 725) ins ->
    exists s' es,
      run s ins = Some (s', es) /\
      wf s' /\ base_ct s' = base_ct s + Z.of_nat (length ins) /\
      base_readings s' = replicate (Z.to_nat NUM_BASELINE) 725 /\
      qt_base s' = 725 /\ qt_Threshold s' = 788 /\
      touchTime s' = Some tt /\
      Forall (fun e => e.1 = false) es /\
      es.*2 = map (fun i =>
                     if to_ulong (millis_settle i) <? BASELINE_TIME
                     then Settling
                     else if to_ulong (to_ulong (millis_mode i) - to_ulong tt)
                             <? LIGHT_ON_TIME
                          then Pulsing else ProximityGlow) ins.
Proof.
  induction ins as [|i ins IH]; intros s tt Hwf Hct Hrep Hb Ht Htt Hall.
  - exists s, []. cbn. repeat split; try apply Hwf; auto; lia.
  - cbn [length] in Hct. apply Forall_cons in Hall as [Hi Hall].
    destruct (steady_tick s i Hwf)
      as (s1 & m & E & Hwf1 & C & R & B1 & T1 & TT & M);
      [lia | assumption | assumption |].
    rewrite (touchTime_init_Some s i tt Htt) in TT, M.
    destruct (IH s1 tt Hwf1)
      as (s' & es & Rn & Hwf' & C' & R' & B' & T' & TT' & NT & MS);
      [lia | assumption | assumption | assumption | assumption | assumption |].
    exists s', ((false, m) :: es). cbn [run]. rewrite E.
    cbn [mbind option_bind]. rewrite Rn. cbn [mbind option_bind length].
    split; [reflexivity|]. split; [exact Hwf'|]. split; [lia|].
    split; [exact R'|]. split; [exact B'|]. split; [exact T'|].
    split; [exact TT'|].
    split; [constructor; [reflexivity | exact NT]|].
    cbn [fmap list_fmap map snd]. rewrite <- M. f_equal. exact MS.
Qed.

(** C6.  From the state after [setup] (baseline 725, threshold 788),
    5000 iterations with sample 725, at whatever times, detect no touch
    and leave baseline and threshold at 725 and 788; the next iteration,
    with sample 800, recomputes them to the same values, detects a touch
    and overwrites [touchTime] with the value [millis()] returns at line
    311 of that iteration. *)
Theorem touch_on_tick_5001 (clk : nat -> Tick) (t : Tick) :
  exists s es,
    run started (map (fun k => with_measure 725 (clk k)) (seq 0 5000))
    = Some (s, es) /\
    Forall (fun e => e.1 = false) es /\
    base_ct s = 5000 /\ qt_base s = 725 /\ qt_Threshold s = 788 /\
    touchTime s =
      Some (to_int (to_ulong (to_ulong (millis_init (clk 0%nat))
                              - DEBUG_CLEAR_TIME))) /\
    exists s' m,
      loop s (with_measure 800 t) = Some (s', (true, m)) /\
      qt_base s' = 725 /\ qt_Threshold s' = 788 /\
      isTouch 800 (qt_base s') = true /\
      touchTime s' = Some (to_int (to_ulong (millis_touch t))).
Proof.
  change (seq 0 5000) with (0%nat :: seq 1 4999). cbn [map].
  set (i0 := with_measure 725 (clk 0%nat)).
  set (ins := map _ (seq 1 4999)).
  destruct (steady_tick started i0 wf_started)
    as (s1 & m1 & E1 & Hwf1 & C1 & R1 & B1 & T1 & TT1 & _);
    [vm_compute; reflexivity | reflexivity | reflexivity |].
  change (touchTime_init started i0)
    with (to_int (to_ulong (to_ulong (millis_init (clk 0%nat))
                            - DEBUG_CLEAR_TIME))) in TT1.
  assert (Hlen : length ins = 4999%nat).
  { subst ins. rewrite length_map, length_seq. reflexivity. }
  destruct (steady_run ins s1
              (to_int (to_ulong (to_ulong (millis_init (clk 0%nat))
                                 - DEBUG_CLEAR_TIME))) Hwf1)
    as (s & es & Rn & Hwf & C & R & B & T & TT & NT & _);
    try assumption.
  { rewrite C1, Hlen. vm_compute. discriminate. }
  { subst ins. apply Forall_map, Forall_forall. intros k _. reflexivity. }
  rewrite C1, Hlen in C. change (base_ct started + 1 + Z.of_nat 4999)
    with 5000 in C.
  destruct (loop_spec s (with_measure 800 t) Hwf)
    as (s' & touch & m & E & _ & _ & A & T' & I & TT' & _).
  { rewrite C. reflexivity. }
  change (to_int (measure (with_measure 800 t))) with 800 in *.
  rewrite baseAvg_spec in A
    by (try apply Hwf; rewrite C; vm_compute; split; congruence).
  injection A as _ _ A3. rewrite C, R in A3.
  assert (Hb : qt_base s' = 725) by (rewrite <- A3; vm_compute; reflexivity).
  rewrite Hb in T', I. change (isTouch 800 725) with true in I. subst touch.
  exists s, ((false, m1) :: es). cbn [run]. rewrite E1.
  cbn [mbind option_bind]. rewrite Rn. cbn [mbind option_bind].
  split; [reflexivity|]. split; [constructor; [reflexivity | exact NT]|].
  split; [exact C|]. split; [exact B|]. split; [exact T|].
  split; [exact TT|].
  exists s', m. rewrite Hb. repeat split; try assumption; reflexivity.
Qed.

(** *** Runs without a touch *)

(** The elapsed-time operand of line 328 against the initial timestamp
    of line 286 taken at uptime [m0]: the time since [m0] plus
    [LIGHT_ON_TIME], modulo 2^32. *)
Lemma elapsed_since_init (m0 t : Z) :
  to_ulong (to_ulong t
            - to_ulong (to_int (to_ulong (to_ulong m0 - DEBUG_CLEAR_TIME))))
  = to_ulong (to_ulong (t - m0) + LIGHT_ON_TIME).
Proof.
  rewrite to_ulong_to_int. unfold to_ulong, DEBUG_CLEAR_TIME, LIGHT_ON_TIME.
  rewrite !Zminus_mod_idemp_r, Zminus_mod_idemp_l.
  replace (t - (m0 mod WORD - 30000)) with (t + 30000 - m0 mod WORD) by lia.
  rewrite Zminus_mod_idemp_r, Zplus_mod_idemp_l.
  f_equal. lia.
Qed.

(** While no iteration detects a touch, the timestamp keeps the value it
    had on entry to the first iteration, every branch is decided against
    that value, and the pulse state moves only in Pulsing iterations. *)
Lemma untouched_run (ins : list Tick) :
  forall (s : State) (i0 : Tick),
    wf s -> base_ct s + Z.of_nat (length (i0 :: ins)) <= INT_MAX ->
    exists s' es,
      run s (i0 :: ins) = Some (s', es) /\
      (Forall (fun e => e.1 = false) es ->
       touchTime s' = Some (touchTime_init s i0) /\
       es.*2 = map (fun i =>
                      if to_ulong (millis_settle i) <? BASELINE_TIME
                      then Settling
                      else if to_ulong (to_ulong (millis_mode i)
                                        - to_ulong (touchTime_init s i0))
                              <? LIGHT_ON_TIME
                           then Pulsing else ProximityGlow) (i0 :: ins) /\
       (Forall (fun m => m <> Pulsing) es.*2 ->
        steps s' = steps s /\ direction s' = direction s)).
Proof.
  induction ins as [|i1 ins IH]; intros s i0 Hwf Hct; cbn [length] in Hct.
  - destruct (loop_spec s i0 Hwf)
      as (s' & t & m & E & _ & _ & _ & _ & _ & TT & M & _); [lia|].
    destruct (loop_pulse_state s i0 Hwf) as (s'' & t' & m' & E' & P); [lia|].
    rewrite E in E'. injection E' as <- <- <-.
    exists s', [(t, m)]. cbn [run]. rewrite E. split; [reflexivity|].
    intros Hn. apply Forall_cons in Hn as [Hn _]. cbn in Hn. subst t.
    assert (Hv : touchTime_val s' = touchTime_init s i0)
      by (unfold touchTime_val; now rewrite TT).
    rewrite Hv in M. split; [exact TT|]. split.
    + cbn [fmap list_fmap map snd]. now rewrite <- M.
    + intros Hp. apply Forall_cons in Hp as [Hp _]. cbn in Hp.
      destruct m; [exact P | contradiction | exact P].
  - destruct (loop_spec s i0 Hwf)
      as (s1 & t & m & E & Hwf1 & C & _ & _ & _ & TT & M & _); [lia|].
    destruct (loop_pulse_state s i0 Hwf) as (s'' & t' & m' & E' & P); [lia|].
    rewrite E in E'. injection E' as <- <- <-.
    destruct (IH s1 i1 Hwf1) as (s' & es & R & K); [cbn [length]; lia|].
    exists s', ((t, m) :: es). change (run s (i0 :: i1 :: ins))
      with ('(s1, e) ← loop s i0; '(s2, es) ← run s1 (i1 :: ins);
            Some (s2, e :: es)).
    rewrite E. cbn [mbind option_bind]. rewrite R. split; [reflexivity|].
    intros Hn. apply Forall_cons in Hn as [Hn Hns]. cbn in Hn. subst t.
    assert (Hv : touchTime_val s1 = touchTime_init s i0)
      by (unfold touchTime_val; now rewrite TT).
    rewrite Hv in M.
    destruct (K Hns) as (TT' & MS & PS).
    rewrite (touchTime_init_Some s1 i1 _ TT) in TT', MS.
    split; [exact TT'|]. split.
    + change ((((false, m) :: es).*2)) with (m :: es.*2).
      rewrite MS. cbn [map]. now rewrite <- M.
    + intros Hp. change ((((false, m) :: es).*2)) with (m :: es.*2) in Hp.
      apply Forall_cons in Hp as [Hp Hps].
      destruct (PS Hps) as (P1 & P2). rewrite P1, P2.
      destruct m; [exact P | contradiction | exact P].
Qed.

(** C10 (as amended).  In a run from the state after [setup] that stays
    within the range of the call counter, if no iteration detects a touch
    and every iteration's [millis()] at line 328 is less than
    2^32 - [LIGHT_ON_TIME] ms after the [millis()] of the first
    iteration's initialiser (about 49.7 days), then [touchTime] keeps its
    initial value, 30000 ms before that first [millis()]; every iteration
    ends in the settling branch, when its [millis()] at line 317 is below
    [BASELINE_TIME], or in ProximityGlow, never in Pulsing; and the pulse
    state is still the initial one. *)
Theorem no_touch_no_pulse (i0 : Tick) (ins : list Tick) :
  Z.of_nat (length (i0 :: ins)) <= INT_MAX ->
  exists s es,
    run started (i0 :: ins) = Some (s, es) /\
    (Forall (fun e => e.1 = false) es ->
     Forall (fun i => to_ulong (millis_mode i - millis_init i0)
                      < WORD - LIGHT_ON_TIME) (i0 :: ins) ->
     touchTime s =
       Some (to_int (to_ulong (to_ulong (millis_init i0) - DEBUG_CLEAR_TIME))) /\
     es.*2 = map (fun i =>
                    if to_ulong (millis_settle i) <? BASELINE_TIME
                    then Settling else ProximityGlow) (i0 :: ins) /\
     Forall (fun m => m <> Pulsing) es.*2 /\
     steps s = 0 /\ direction s = true).
Proof.
  intros Hlen.
  destruct (untouched_run ins started i0 wf_started) as (s & es & R & K).
  { change (base_ct started) with 0. lia. }
  exists s, es. split; [exact R|]. intros Hn Ht.
  destruct (K Hn) as (TT & MS & PS).
  change (touchTime_init started i0)
    with (to_int (to_ulong (to_ulong (millis_init i0) - DEBUG_CLEAR_TIME)))
    in TT, MS.
  assert (MS' : es.*2 = map (fun i =>
                    if to_ulong (millis_settle i) <? BASELINE_TIME
                    then Settling else ProximityGlow) (i0 :: ins)).
  { rewrite MS. apply map_ext_Forall. eapply Forall_impl; [exact Ht|].
    intros i Hi. cbn beta in *. rewrite elapsed_since_init.
    destruct (_ <? BASELINE_TIME); [reflexivity|].
    pose proof (to_ulong_range (millis_mode i - millis_init i0)) as Hr.
    unfold to_ulong at 1. unfold WORD, LIGHT_ON_TIME in *.
    rewrite Z.mod_small by lia.
    destruct (Z.ltb_spec (to_ulong (millis_mode i - millis_init i0) + 30000)
                30000); [lia|reflexivity]. }
  assert (NP : Forall (fun m => m <> Pulsing) es.*2).
  { rewrite MS'. apply Forall_map, Forall_forall. intros i _.
    destruct (_ <? BASELINE_TIME); discriminate. }
  split; [exact TT|]. split; [exact MS'|]. split; [exact NP|].
  exact (PS NP).
Qed.

Lemma no_touch_no_pulse_witness :
  exists s es,
    run started [tick_at 0 725; tick_at 10 725; tick_at 6000 725]
    = Some (s, es) /\
    Forall (fun m => m <> Pulsing) es.*2 /\ steps s = 0.
Proof.
  destruct (no_touch_no_pulse (tick_at 0 725)
              [tick_at 10 725; tick_at 6000 725]) as (s & es & R & K).
  { vm_compute. discriminate. }
  exists s, es. split; [exact R|].
  assert (Hes : es = [(false, Settling); (false, Settling);
                      (false, ProximityGlow)]).
  { vm_compute in R. injection R as _ <-. reflexivity. }
  subst es. destruct K as (_ & _ & NP & S0 & _).
  - repeat constructor.
  - repeat constructor; vm_compute; reflexivity.
  - split; [exact NP | exact S0].
Defined.

(** *** The paced run at the seed value *)

Lemma paced_from_app (k : Z) (l1 l2 : list Z) :
  paced_from k (l1 ++ l2)
  = paced_from k l1 ++ paced_from (k + Z.of_nat (length l1)) l2.
Proof.
  unfold paced_from. rewrite imap_app. f_equal.
  apply imap_ext. intros j r _. cbn. f_equal. lia.
Qed.

Lemma imap_measure_Forall (P : Z -> Prop) (l : list Z) :
  forall f : nat -> Z -> Tick,
    (forall j r, measure (f j r) = r) ->
    Forall P l -> Forall (fun i => P (measure i)) (imap f l).
Proof.
  induction l as [|r l IH]; intros f Hf Hl; [constructor|].
  apply Forall_cons in Hl as [Hr Hl]. cbn [imap]. constructor.
  - now rewrite Hf.
  - apply IH; [|exact Hl]. intros j r'. apply Hf.
Qed.

Lemma paced_from_seed (k : Z) (n : nat) :
  Forall (fun i => to_int (measure i) = 725) (paced_from k (replicate n 725)).
Proof.
  apply (imap_measure_Forall (fun r => to_int r = 725)).
  - reflexivity.
  - apply Forall_replicate. reflexivity.
Qed.

(** The paced run at the seed value, for a number of iterations given
    by its value in [Z]: the first iteration, [n] more, and the one at
    uptime 4294937300 ms. *)
Lemma paced_seed_wrap (n : nat) :
  Z.of_nat n = 429493729 ->
  exists s es,
    run started (paced (replicate (1 + (n + 1)) 725)) = Some (s, es) /\
    Forall (fun e => e.1 = false) es /\
    last es = Some (false, Pulsing).
Proof.
  intros Hn.
  rewrite !replicate_add. change (replicate 1 725) with [725].
  unfold paced. rewrite !paced_from_app, length_replicate.
  change (Z.of_nat (length [725])) with 1. rewrite Hn.
  change (paced_from 0 [725]) with [tick_at 0 725].
  change (paced_from (0 + 1 + 429493729) [725])
    with [tick_at 4294937300 725].
  change (0 + 1) with 1.
  set (mid := paced_from 1 (replicate n 725)).
  assert (Hmid : Z.of_nat (length mid) = 429493729).
  { subst mid. unfold paced_from. now rewrite length_imap, length_replicate. }
  destruct (steady_tick started (tick_at 0 725) wf_started)
    as (s1 & m1 & E1 & Hwf1 & C1 & R1 & B1 & T1 & TT1 & _);
    [vm_compute; reflexivity | reflexivity | reflexivity |].
  change (touchTime_init started (tick_at 0 725)) with (-30000) in TT1.
  change (base_ct started + 1) with 1 in C1.
  destruct (steady_run mid s1 (-30000) Hwf1)
    as (s2 & es & R & Hwf2 & C2 & R2 & B2 & T2 & TT2 & NT & _);
    try assumption.
  { rewrite C1, Hmid. vm_compute. discriminate. }
  { apply paced_from_seed. }
  rewrite C1, Hmid in C2.
  destruct (steady_tick s2 (tick_at 4294937300 725) Hwf2)
    as (s3 & m3 & E3 & _ & _ & _ & _ & _ & _ & M3);
    [rewrite C2; vm_compute; reflexivity | assumption | reflexivity |].
  rewrite (touchTime_init_Some s2 _ _ TT2) in M3.
  vm_compute in M3. subst m3.
  exists s3, ((false, m1) :: es ++ [(false, Pulsing)]).
  change ([tick_at 0 725] ++ mid ++ [tick_at 4294937300 725])
    with (tick_at 0 725 :: mid ++ [tick_at 4294937300 725]).
  cbn [run]. rewrite E1. cbn [mbind option_bind].
  rewrite run_app, R. cbn [mbind option_bind run]. rewrite E3.
  cbn [mbind option_bind].
  split; [reflexivity|]. split.
  - constructor; [reflexivity|]. apply Forall_app. split; [exact NT|].
    repeat constructor.
  - change ((false, m1) :: es ++ [(false, Pulsing)])
      with (((false, m1) :: es) ++ [(false, Pulsing)]).
    apply last_snoc.
Qed.

(** C10 as stated fails once the elapsed-time subtraction of line 328
    wraps.  At the sketch's pace of one iteration per 10 ms, with every
    sample equal to the seed 725 (so that no iteration detects a touch),
    iteration number 429493731 runs at uptime 4294937300 ms: there
    [millis() - touchTime] is 4294937300 + 30000 modulo 2^32, that is 4,
    which is below [LIGHT_ON_TIME], and the iteration ends in Pulsing. *)
Lemma pulse_without_touch :
  exists s es,
    run started (paced (replicate (Z.to_nat 429493731) 725)) = Some (s, es) /\
    Forall (fun e => e.1 = false) es /\
    last es = Some (false, Pulsing).
Proof.
  assert (Hn : Z.to_nat 429493731 = (1 + (Z.to_nat 429493729 + 1))%nat)
    by lia.
  rewrite Hn. apply paced_seed_wrap. apply Z2Nat.id. discriminate.
Qed.

(** ** ProximityGlow fade-out *)

Lemma Zsum_cons (x : Z) (l : list Z) : Zsum (x :: l) = x + Zsum l.
Proof. reflexivity. Qed.

Lemma Zsum_bounds (M : Z) (l : list Z) :
  Forall (fun v => 0 <= v <= M) l ->
  0 <= Zsum l <= Z.of_nat (length l) * M.
Proof.
  induction 1 as [|x l Hx Hl IH]; cbn [Zsum fold_right length]; [lia|].
  fold (Zsum l). lia.
Qed.

Lemma Zsum_insert_zero (l : list Z) :
  forall i : nat, Forall (fun v => 0 <= v) l -> Zsum (<[i := 0]> l) <= Zsum l.
Proof.
  induction l as [|x l IH]; intros i Hl; [reflexivity|].
  apply Forall_cons in Hl as [Hx Hl].
  destruct i as [|i].
  - change (<[0%nat := 0]> (x :: l)) with (0 :: l). rewrite !Zsum_cons. lia.
  - change (<[S i := 0]> (x :: l)) with (x :: <[i := 0]> l).
    rewrite !Zsum_cons. specialize (IH i Hl). lia.
Qed.

Lemma Zsum_zero (l : list Z) : Forall (fun v => v = 0) l -> Zsum l = 0.
Proof.
  induction 1 as [|x l Hx Hl IH]; cbn [Zsum fold_right]; [reflexivity|].
  fold (Zsum l). lia.
Qed.

Lemma zeroed_step (k : Z) (buf : list Z) (ct : Z) :
  length buf = Z.to_nat NUM_MEAS -> 0 <= ct ->
  zeroed k buf ct ->
  zeroed (k + 1) (<[Z.to_nat ((ct + 1) `rem` NUM_MEAS) := 0]> buf) (ct + 1).
Proof.
  intros Hlen Hct Hz i Hi Hk.
  rewrite Z.rem_mod_nonneg by (unfold NUM_MEAS; lia).
  destruct (decide (i = Z.to_nat ((ct + 1) mod NUM_MEAS))) as [->|Hne].
  - apply list_lookup_insert_eq. rewrite Hlen.
    pose proof (Z.mod_pos_bound (ct + 1) NUM_MEAS). unfold NUM_MEAS in *. lia.
  - rewrite list_lookup_insert_ne by congruence.
    apply Hz; [exact Hi|].
    unfold NUM_MEAS in *.
    assert (Z.of_nat i <> (ct + 1) mod 50) by lia.
    revert Hk H. clear -Hi.
    intros. Z.to_euclidean_division_equations. lia.
Qed.

Lemma zeroed_all (k : Z) (buf : list Z) (ct : Z) :
  length buf = Z.to_nat NUM_MEAS -> NUM_MEAS <= k ->
  zeroed k buf ct -> Zsum buf = 0.
Proof.
  intros Hlen Hk Hz. apply Zsum_zero, Forall_lookup. intros i x Hx.
  assert (Hi : (i < 50)%nat).
  { apply lookup_lt_Some in Hx. rewrite Hlen in Hx. exact Hx. }
  rewrite Hz in Hx; [congruence | exact Hi |].
  pose proof (Z.mod_pos_bound (ct - Z.of_nat i) NUM_MEAS).
  unfold NUM_MEAS in *. lia.
Qed.

(** The fade-out branch of [lightAtNear], with the arithmetic in range:
    one slot of the averager is zeroed and the value written is the new
    average minus the baseline, capped by the retained brightness and
    floored at 0. *)
Lemma lightAtNear_fade (s : State) (b m : Z) :
  length (measSet s) = Z.to_nat NUM_MEAS ->
  0 <= measCount s < INT_MAX ->
  Forall (fun v => 0 <= v <= INT_MAX `quot` NUM_MEAS) (measSet s) ->
  0 <= b <= INT_MAX - MIN_OVER_THRESHOLD ->
  m <= b + MIN_OVER_THRESHOLD ->
  lightAtNear (set_qt_base s b) m =
    Some (analogWrite
            (set_meas (set_qt_base s b)
               (<[Z.to_nat ((measCount s + 1) `rem` NUM_MEAS) := 0]> (measSet s))
               (measCount s + 1)
               (Zsum (<[Z.to_nat ((measCount s + 1) `rem` NUM_MEAS) := 0]>
                        (measSet s)) `quot` NUM_MEAS))
            (Z.max 0
               (Z.min (Zsum (<[Z.to_nat ((measCount s + 1) `rem` NUM_MEAS)
                               := 0]> (measSet s)) `quot` NUM_MEAS - b)
                      (lastLightMeasure s)))).
Proof.
  intros Hlen Hct Hall Hb Hm. unfold lightAtNear.
  cbn [qt_base set_qt_base].
  unfold MIN_OVER_THRESHOLD, INT_MAX in *.
  rewrite (to_int_id (b + 3)) by (unfold in_int, INT_MIN, INT_MAX; lia).
  destruct (Z.ltb_spec (b + 3) m) as [|_]; [lia|].
  rewrite addMeasurement_spec by (assumption || (unfold INT_MAX; cbn; lia)).
  cbn [mbind option_bind measSet measCount set_qt_base qt_base set_meas
       lastLightMeasure].
  set (buf := <[_ := 0]> (measSet s)).
  assert (Hbuf : 0 <= Zsum buf <= 2147483600).
  { pose proof (Zsum_bounds (INT_MAX `quot` NUM_MEAS) buf) as Hs.
    subst buf. rewrite length_insert, Hlen in Hs.
    change (Z.of_nat (Z.to_nat NUM_MEAS) * INT_MAX `quot` NUM_MEAS)
      with 2147483600 in Hs.
    apply Hs, Forall_insert; [exact Hall|]. vm_compute. split; discriminate. }
  rewrite (to_int_id (Zsum buf)) by (unfold in_int, INT_MIN, INT_MAX; lia).
  set (avg := Zsum buf `quot` NUM_MEAS).
  assert (Havg : 0 <= avg <= 42949672).
  { subst avg. unfold NUM_MEAS. split; [apply Z.quot_pos; lia|].
    apply Z.quot_le_upper_bound; lia. }
  rewrite (to_int_id (avg - b)) by (unfold in_int, INT_MIN, INT_MAX; lia).
  rewrite (to_int_id (b - 3)) by (unfold in_int, INT_MIN, INT_MAX; lia).
  destruct (Z.ltb_spec (b - 3) avg);
    destruct (Z.ltb_spec (lastLightMeasure s) (avg - b));
    repeat match goal with
      | |- context [?x <? 0] => destruct (Z.ltb_spec x 0)
      end;
    do 2 f_equal; lia.
Qed.

Lemma fade_gen (calls : list (Z * Z)) :
  forall (s : State) (k b0 : Z),
    length (measSet s) = Z.to_nat NUM_MEAS ->
    0 <= measCount s ->
    measCount s + Z.of_nat (length calls) <= INT_MAX ->
    Forall (fun v => 0 <= v <= INT_MAX `quot` NUM_MEAS) (measSet s) ->
    Forall (fun c => 0 <= c.1 <= INT_MAX - MIN_OVER_THRESHOLD /\
                     c.2 <= c.1 + MIN_OVER_THRESHOLD) calls ->
    0 <= k -> zeroed k (measSet s) (measCount s) ->
    exists s' ws,
      glow s calls = Some s' /\
      noodle s' = rev ws ++ noodle s /\
      length ws = length calls /\
      Forall (fun w => 0 <= w <= Z.max 0 (lastLightMeasure s)) ws /\
      (forall (j : nat) (w : Z),
          ws !! j = Some w -> 49 <= k + Z.of_nat j -> w = 0) /\
      (HdRel Z.le b0 calls.*1 -> Sorted Z.le calls.*1 ->
       HdRel Z.ge
         (Z.max 0 (Z.min (Zsum (measSet s) `quot` NUM_MEAS - b0)
                         (lastLightMeasure s))) ws /\
       Sorted Z.ge ws).
Proof.
  induction calls as [|[b m] calls IH];
    intros s k b0 Hlen Hct Hmax Hall Hcalls Hk Hz.
  - exists s, []. cbn. repeat split; auto. intros j w Hj. discriminate.
  - apply Forall_cons in Hcalls as [[Hb Hm] Hcalls]. cbn [fst snd] in Hb, Hm.
    cbn [length] in Hmax. cbn [glow].
    rewrite lightAtNear_fade by (assumption || lia).
    cbn [mbind option_bind].
    set (buf := <[_ := 0]> (measSet s)).
    set (avg := Zsum buf `quot` NUM_MEAS).
    set (w := Z.max 0 (Z.min (avg - b) (lastLightMeasure s))).
    set (s1 := analogWrite _ w).
    assert (Hall1 : Forall (fun v => 0 <= v <= INT_MAX `quot` NUM_MEAS) buf).
    { apply Forall_insert; [exact Hall|]. vm_compute. split; discriminate. }
    destruct (IH s1 (k + 1) b) as (s' & ws & G & N & L & B & Zr & Mo).
    { subst s1 buf. cbn. now rewrite length_insert. }
    { subst s1. cbn. lia. }
    { subst s1. cbn. lia. }
    { exact Hall1. }
    { exact Hcalls. }
    { lia. }
    { subst s1 buf. cbn [measSet measCount analogWrite set_meas].
      now apply zeroed_step. }
    exists s', (w :: ws). split; [exact G|].
    change (lastLightMeasure s1) with (lastLightMeasure s) in *.
    change (measSet s1) with buf in *.
    change (noodle s1) with (w :: noodle s) in N.
    split; [rewrite N; cbn [rev]; now rewrite <- app_assoc|].
    split; [cbn [length]; now rewrite L|].
    split; [constructor; [subst w; lia | exact B]|].
    split.
    + intros [|j] w' Hj Hkj.
      * cbn in Hj. injection Hj as <-.
        assert (Hsum : Zsum buf = 0).
        { apply (zeroed_all (k + 1) buf (measCount s + 1)).
          - subst buf. now rewrite length_insert.
          - unfold NUM_MEAS. lia.
          - subst buf. now apply zeroed_step. }
        subst w avg. rewrite Hsum. change (0 `quot` NUM_MEAS) with 0. lia.
      * apply (Zr j w' Hj). lia.
    + intros Hhd Hs. change (((b, m) :: calls).*1) with (b :: calls.*1) in *.
      apply HdRel_inv in Hhd. apply Sorted_inv in Hs as [Hs Hhd'].
      destruct (Mo Hhd' Hs) as (Mo1 & Mo2).
      fold avg in Mo1. fold w in Mo1.
      split; [|constructor; assumption].
      constructor. subst w.
      assert (Hle : avg <= Zsum (measSet s) `quot` NUM_MEAS).
      { subst avg buf. apply Z.quot_le_mono; [unfold NUM_MEAS; lia|].
        apply Zsum_insert_zero. eapply Forall_impl; [exact Hall|].
        intros v Hv. cbn beta in Hv. lia. }
      revert Hle Hhd. generalize (Zsum (measSet s) `quot` NUM_MEAS).
      generalize avg. generalize (lastLightMeasure s). clear.
      intros L a A Hle Hhd. lia.
Qed.

(** C2 (as amended).  Over consecutive fade-out calls of [lightAtNear]
    (each sample at most the baseline plus [MIN_OVER_THRESHOLD]), with
    non-negative baselines and the averager holding values between 0 and
    [INT_MAX / NUM_MEAS], every call returns and writes one value; each
    value written lies between 0 and the larger of 0 and the retained
    brightness [lastLightMeasure]; if the baseline does not decrease from
    one call to the next, the values written are non-increasing; and from
    the 50th call on the value written is exactly 0. *)
Theorem fade_out (s : State) (calls : list (Z * Z)) :
  length (measSet s) = Z.to_nat NUM_MEAS ->
  0 <= measCount s ->
  measCount s + Z.of_nat (length calls) <= INT_MAX ->
  Forall (fun v => 0 <= v <= INT_MAX `quot` NUM_MEAS) (measSet s) ->
  Forall (fun c => 0 <= c.1 <= INT_MAX - MIN_OVER_THRESHOLD /\
                   c.2 <= c.1 + MIN_OVER_THRESHOLD) calls ->
  exists s' ws,
    glow s calls = Some s' /\
    noodle s' = rev ws ++ noodle s /\
    length ws = length calls /\
    Forall (fun w => 0 <= w <= Z.max 0 (lastLightMeasure s)) ws /\
    (Sorted Z.le calls.*1 -> Sorted Z.ge ws) /\
    (forall (j : nat) (w : Z), ws !! j = Some w -> (49 <= j)%nat -> w = 0).
Proof.
  intros Hlen Hct Hmax Hall Hcalls.
  destruct (fade_gen calls s 0 (hd 0 calls.*1))
    as (s' & ws & G & N & L & B & Zr & Mo); try assumption; try lia.
  { intros i _ Hi. pose proof (Z.mod_pos_bound (measCount s - Z.of_nat i) NUM_MEAS).
    unfold NUM_MEAS in *. lia. }
  exists s', ws. repeat split; try assumption.
  - intros Hs. apply Mo; [|exact Hs].
    destruct calls as [|[b m] calls]; constructor. cbn. lia.
  - intros j w Hj Hge. apply (Zr j w Hj). lia.
Qed.

Lemma fade_out_witness :
  exists s' ws,
    glow (set_lastLightMeasure (set_meas started (replicate 50 780) 50 780) 55)
         [(725, 725); (725, 700); (726, 0)] = Some s' /\
    length ws = 3%nat /\
    Forall (fun w => 0 <= w <= 55) ws /\
    Sorted Z.ge ws.
Proof.
  destruct (fade_out
              (set_lastLightMeasure (set_meas started (replicate 50 780) 50 780) 55)
              [(725, 725); (725, 700); (726, 0)])
    as (s' & ws & G & _ & L & B & Mo & _).
  - reflexivity.
  - vm_compute. discriminate.
  - vm_compute. discriminate.
  - apply Forall_replicate. vm_compute. split; discriminate.
  - repeat constructor; vm_compute; discriminate.
  - exists s', ws. split; [exact G|]. split; [exact L|]. split; [exact B|].
    apply Mo. repeat constructor; vm_compute; discriminate.
Defined.

(** [lightAtNear] reads, of the state, only [qt_base] and the light
    variables, and its effect on the light variables depends on nothing
    else. *)
Lemma lightAtNear_light (a b : State) (m : Z) :
  same_light a b -> qt_base b = qt_base a ->
  match lightAtNear a m, lightAtNear b m with
  | Some a', Some b' => same_light a' b'
  | None, None => True
  | _, _ => False
  end.
Proof.
  intros (H1 & H2 & H3 & H4 & H5 & H6 & H7 & H8) Hq.
  unfold lightAtNear, addMeasurement. rewrite Hq, H1, H2.
  destruct (_ <? m);
    (destruct (array_set (measSet a) _ _) as [buf|]; [|exact I]);
    cbn [mbind option_bind]; cbv zeta;
    cbn [qt_base lastLightMeasure set_meas set_lastLightMeasure];
    rewrite ?Hq, ?H4;
    match goal with
    | |- context [if ?c then Some _ else Some _] => destruct c
    end;
    unfold same_light; cbn; repeat split; congruence.
Qed.

(** A ProximityGlow iteration of [loop] acts on the light variables as
    one step of [glow], at the baseline the iteration has stored. *)
Lemma loop_glow_step (s s' : State) (i : Tick) (t : bool) :
  wf s -> base_ct s < INT_MAX ->
  loop s i = Some (s', (t, ProximityGlow)) ->
  exists s'', glow s [(qt_base s', to_int (measure i))] = Some s'' /\
              same_light s'' s'.
Proof.
  intros Hwf Hct E.
  destruct (loop_step s i Hwf Hct)
    as (s4 & t' & s1 & m & Es & El & E' & _ & _ & F).
  rewrite E in E'. injection E' as J1 J2 J3. subst s1 t' m.
  destruct (loop_sense_spec s i) as (s4' & t'' & Es' & _ & _ & _ & _ & _ & L);
    [apply Hwf | destruct Hwf as (_ & _ & ?); lia |].
  rewrite Es in Es'. injection Es' as J1 J2. subst s4' t''.
  unfold loop_light in El.
  destruct (_ <? BASELINE_TIME); [discriminate|].
  destruct (_ <? LIGHT_ON_TIME); [discriminate|].
  destruct (lightAtNear s4 (to_int (measure i))) as [s5|] eqn:E5;
    [|discriminate].
  cbn [mbind option_bind] in El. injection El as J. subst s5.
  destruct F as (_ & _ & F3 & _). cbn [glow].
  pose proof (lightAtNear_light (set_qt_base s (qt_base s')) s4
                (to_int (measure i))) as K.
  rewrite E5 in K.
  destruct (lightAtNear (set_qt_base s (qt_base s')) _) as [s''|].
  - exists s''. split; [reflexivity|]. apply K; [exact L | now rewrite F3].
  - exfalso. apply K; [exact L | now rewrite F3].
Qed.

Lemma option_case {A B : Type} (f : A -> B) (o : option A) (v : B) :
  f <$> o = Some v -> exists a, o = Some a /\ f a = v.
Proof. destruct o as [a|]; cbn; [intros [= H]; eauto | discriminate]. Qed.

(** C2 as stated fails: the values written in consecutive fade-out
    iterations can increase, because the baseline moves between them.
    At the sketch's pace, after 500 settling samples of 720, 46 samples of
    778 and one of 786 (all near, none a touch; the last writes 7 and
    retains 7), the sample 727 is a fade-out iteration at baseline 725 and
    writes 6; the sample 0 is a fade-out iteration at baseline 724, finds
    the average unchanged (the slot it zeroes held 0) and writes 7. *)
Lemma fade_out_not_monotone :
  exists sb eb sc,
    run started
      (paced (replicate 500 720 ++ replicate 46 778 ++ [786; 727]))
    = Some (sb, eb) /\
    last eb = Some (false, ProximityGlow) /\
    727 <= qt_base sb + MIN_OVER_THRESHOLD /\
    lastLightMeasure sb = 7 /\
    take 2 (noodle sb) = [6; 7] /\
    loop sb (tick_at 5480 0) = Some (sc, (false, ProximityGlow)) /\
    0 <= qt_base sc + MIN_OVER_THRESHOLD /\
    take 3 (noodle sc) = [7; 6; 7].
Proof.
  destruct (option_case
              (fun r : State * list (bool * Mode) =>
                 (last r.2, qt_base r.1, lastLightMeasure r.1,
                  take 2 (noodle r.1)))
              (run started
                 (paced (replicate 500 720 ++ replicate 46 778 ++ [786; 727])))
              (Some (false, ProximityGlow), 725, 7, [6; 7]))
    as ([sb eb] & Rb & Vb); [vm_compute; reflexivity|].
  destruct (option_case
              (fun r : State * list (bool * Mode) =>
                 (last r.2, qt_base r.1, take 3 (noodle r.1)))
              (run started
                 (paced ((replicate 500 720 ++ replicate 46 778 ++ [786; 727])
                         ++ [0])))
              (Some (false, ProximityGlow), 724, [7; 6; 7]))
    as ([sc ec] & Rc & Vc); [vm_compute; reflexivity|].
  cbn [fst snd] in Vb, Vc.
  injection Vb as Vb1 Vb2 Vb3 Vb4. injection Vc as Vc1 Vc2 Vc3.
  unfold paced in Rc. rewrite paced_from_app in Rc. fold (paced
    (replicate 500 720 ++ replicate 46 778 ++ [786; 727])) in Rc.
  rewrite run_app, Rb in Rc. cbn [mbind option_bind] in Rc.
  change (paced_from _ [0]) with [tick_at 5480 0] in Rc. cbn [run] in Rc.
  destruct (loop sb (tick_at 5480 0)) as [[sc' e]|] eqn:El; [|discriminate].
  cbn [mbind option_bind] in Rc. injection Rc as J1 J2. subst sc' ec.
  rewrite last_snoc in Vc1. injection Vc1 as ->.
  exists sb, eb, sc. rewrite Vb2, Vc2.
  split; [exact Rb|]. split; [exact Vb1|].
  split; [vm_compute; discriminate|].
  split; [exact Vb3|]. split; [exact Vb4|]. split; [exact El|].
  split; [vm_compute; discriminate | exact Vc3].
Qed.

(** ** The values handed to [analogWrite] *)

(** C3 fails in the near branch of [lightAtNear], which writes the
    average minus the baseline with no upper bound.  At the sketch's pace:
    500 settling samples of 725, 50 near samples of 780 (the averager now
    holds 780 throughout), a touch at 800, then 2999 samples of 300 while
    the pulse runs and the baseline falls to 470, then a near sample of
    500: the average is 774 and [analogWrite] is handed 774 - 470 = 304. *)
Theorem near_write_above_255 :
  exists s es,
    run started
      (paced (replicate 500 725 ++ replicate 50 780 ++ [800]
              ++ replicate 2999 300 ++ [500])) = Some (s, es) /\
    last es = Some (false, ProximityGlow) /\
    qt_base s = 470 /\ avgMeasure s = 774 /\
    written s = 304.
Proof.
  destruct (option_case
              (fun r : State * list (bool * Mode) =>
                 (last r.2, qt_base r.1, avgMeasure r.1, written r.1))
              (run started
                 (paced (replicate 500 725 ++ replicate 50 780 ++ [800]
                         ++ replicate 2999 300 ++ [500])))
              (Some (false, ProximityGlow), 470, 774, 304))
    as ([s es] & R & V).
  - vm_compute. reflexivity.
  - exists s, es. cbn [fst snd] in V. injection V as V1 V2 V3 V4. auto.
Qed.

(** * Further properties *)

(** ** Circular buffers *)

Lemma mod_eq_small (a b n : Z) :
  0 < n -> a mod n = b mod n -> - n < a - b < n -> a = b.
Proof.
  intros Hn He Hr.
  pose proof (Z.div_mod a n) as Ha. pose proof (Z.div_mod b n) as Hb.
  rewrite He in Ha.
  assert (Hq : a - b = n * (a / n - b / n)) by lia.
  assert (a / n - b / n = 0) by nia. lia.
Qed.

Lemma window_nil (n : Z) (buf : list Z) (ct : Z) : window n [] buf ct.
Proof. intros j _ Hj. cbn in Hj. lia. Qed.

(** One more write keeps the window. *)
Lemma window_step (n : Z) (vals buf : list Z) (ct v : Z) :
  0 < n -> length buf = Z.to_nat n -> 0 <= ct ->
  window n vals buf ct ->
  window n (v :: vals) (<[Z.to_nat ((ct + 1) `rem` n) := v]> buf) (ct + 1).
Proof.
  intros Hn Hlen Hct Hw j Hj Hjl.
  rewrite Z.rem_mod_nonneg by lia.
  destruct j as [|j].
  - replace (ct + 1 - Z.of_nat 0) with (ct + 1) by lia.
    apply list_lookup_insert_eq. rewrite Hlen.
    pose proof (Z.mod_pos_bound (ct + 1) n). lia.
  - replace (ct + 1 - Z.of_nat (S j)) with (ct - Z.of_nat j) by lia.
    cbn [lookup list_lookup].
    change (list_lookup j vals) with (vals !! j).
    rewrite list_lookup_insert_ne.
    + apply Hw; [lia | cbn in Hjl; lia].
    + intros He. apply Z2Nat.inj in He;
        try (apply Z.mod_pos_bound; lia).
      apply mod_eq_small in He; lia.
Qed.

(** Once [n] values are written, every slot is accounted for. *)
Lemma window_lookup (n : Z) (vals buf : list Z) (ct : Z) (i : nat) :
  0 < n -> (Z.to_nat n <= length vals)%nat -> Z.of_nat i < n ->
  window n vals buf ct ->
  buf !! i = vals !! Z.to_nat ((ct - Z.of_nat i) mod n).
Proof.
  intros Hn Hv Hi Hw.
  pose proof (Z.mod_pos_bound (ct - Z.of_nat i) n Hn) as Hb.
  rewrite <- (Hw (Z.to_nat ((ct - Z.of_nat i) mod n))) by lia.
  f_equal. rewrite Z2Nat.id by lia.
  rewrite Zminus_mod_idemp_r.
  replace (ct - (ct - Z.of_nat i)) with (Z.of_nat i) by lia.
  rewrite Z.mod_small by lia. lia.
Qed.

Lemma Zsum_Permutation (l k : list Z) : l ≡ₚ k -> Zsum l = Zsum k.
Proof.
  induction 1; rewrite ?Zsum_cons; lia.
Qed.

Lemma Zsum_rev (l : list Z) : Zsum (rev l) = Zsum l.
Proof.
  induction l as [|x l IH]; [reflexivity|].
  cbn [rev]. rewrite Zsum_app, !Zsum_cons, IH.
  change (Zsum []) with 0. lia.
Qed.

(** The slot order is a permutation of the write order. *)
Lemma slots_Permutation (n : Z) (ct : Z) :
  0 < n ->
  (fun i : nat => Z.to_nat ((ct - Z.of_nat i) mod n)) <$> seq 0 (Z.to_nat n)
  ≡ₚ seq 0 (Z.to_nat n).
Proof.
  intros Hn.
  assert (Hinv : forall i : nat, Z.of_nat i < n ->
            Z.to_nat ((ct - Z.of_nat (Z.to_nat ((ct - Z.of_nat i) mod n)))
                      mod n) = i).
  { intros i Hi.
    pose proof (Z.mod_pos_bound (ct - Z.of_nat i) n Hn).
    rewrite Z2Nat.id by lia. rewrite Zminus_mod_idemp_r.
    replace (ct - (ct - Z.of_nat i)) with (Z.of_nat i) by lia.
    rewrite Z.mod_small by lia. lia. }
  apply NoDup_Permutation.
  - apply NoDup_fmap_2_strong; [|apply NoDup_seq].
    intros x y Hx Hy He. apply elem_of_seq in Hx, Hy.
    rewrite <- (Hinv x), <- (Hinv y) by lia. now rewrite He.
  - apply NoDup_seq.
  - intros x. rewrite list_elem_of_fmap. split.
    + intros (i & -> & Hi). apply elem_of_seq in Hi. apply elem_of_seq.
      pose proof (Z.mod_pos_bound (ct - Z.of_nat i) n Hn). lia.
    + intros Hx. apply elem_of_seq in Hx.
      exists (Z.to_nat ((ct - Z.of_nat x) mod n)). split.
      * symmetry. apply Hinv. lia.
      * apply elem_of_seq.
        pose proof (Z.mod_pos_bound (ct - Z.of_nat x) n Hn). lia.
Qed.

Lemma list_as_fmap_seq (l : list Z) :
  l = (fun i : nat => default 0 (l !! i)) <$> seq 0 (length l).
Proof.
  apply list_eq. intros i. rewrite list_lookup_fmap.
  destruct (decide (i < length l)%nat) as [Hi|Hi].
  - rewrite lookup_seq_lt by exact Hi. cbn.
    destruct (lookup_lt_is_Some_2 l i Hi) as [x Hx]. now rewrite Hx.
  - rewrite lookup_ge_None_2 by lia.
    rewrite lookup_seq_ge by lia. reflexivity.
Qed.

(** Once [n] values are written, the buffer sums to the last [n]. *)
Lemma window_sum (n : Z) (vals buf : list Z) (ct : Z) :
  0 < n -> length buf = Z.to_nat n -> (Z.to_nat n <= length vals)%nat ->
  window n vals buf ct ->
  Zsum buf = Zsum (take (Z.to_nat n) vals).
Proof.
  intros Hn Hlen Hv Hw.
  assert (Hb : buf = (fun j : nat => default 0 (vals !! j)) <$>
                     ((fun i : nat => Z.to_nat ((ct - Z.of_nat i) mod n))
                        <$> seq 0 (Z.to_nat n))).
  { rewrite <- list_fmap_compose. rewrite (list_as_fmap_seq buf) at 1.
    rewrite Hlen. apply list_eq. intros i. rewrite !list_lookup_fmap.
    destruct (seq 0 (Z.to_nat n) !! i) as [k|] eqn:Hk; [|reflexivity].
    apply lookup_seq in Hk as [-> Hk]. cbn. f_equal. f_equal.
    apply window_lookup; try assumption. lia. }
  assert (Ht : take (Z.to_nat n) vals
               = (fun j : nat => default 0 (vals !! j)) <$> seq 0 (Z.to_nat n)).
  { rewrite (list_as_fmap_seq (take (Z.to_nat n) vals)) at 1.
    rewrite length_take_le by exact Hv.
    apply list_eq. intros i. rewrite !list_lookup_fmap.
    destruct (seq 0 (Z.to_nat n) !! i) as [k|] eqn:Hk; [|reflexivity].
    apply lookup_seq in Hk as [-> Hk]. cbn. f_equal. f_equal.
    apply lookup_take_lt. lia. }
  rewrite Hb, Ht. apply Zsum_Permutation, fmap_Permutation.
  now apply slots_Permutation.
Qed.

(** Once [n] equal values are written, every slot holds that value. *)
Lemma window_const (n : Z) (vals buf : list Z) (ct r : Z) :
  0 < n -> length buf = Z.to_nat n -> (Z.to_nat n <= length vals)%nat ->
  Forall (fun v => v = r) (take (Z.to_nat n) vals) ->
  window n vals buf ct ->
  buf = replicate (Z.to_nat n) r.
Proof.
  intros Hn Hlen Hv Hall Hw. apply list_eq. intros i.
  destruct (decide (i < Z.to_nat n)%nat) as [Hi|Hi].
  - rewrite lookup_replicate_2 by exact Hi.
    rewrite (window_lookup n vals buf ct i) by (try assumption; lia).
    pose proof (Z.mod_pos_bound (ct - Z.of_nat i) n Hn) as Hb.
    destruct (lookup_lt_is_Some_2 vals (Z.to_nat ((ct - Z.of_nat i) mod n)))
      as [x Hx]; [lia|].
    rewrite Hx. f_equal.
    rewrite Forall_lookup in Hall. apply (Hall (Z.to_nat ((ct - Z.of_nat i) mod n))).
    rewrite lookup_take_lt by lia. exact Hx.
  - rewrite lookup_ge_None_2 by lia.
    symmetry. apply lookup_replicate_None. lia.
Qed.

(** ** The baseline estimator as a sliding window *)

Lemma feed_window (rs : list Z) :
  forall (s : State) (vals : list Z),
    length (base_readings s) = Z.to_nat NUM_BASELINE ->
    0 <= base_ct s ->
    base_ct s + Z.of_nat (length rs) <= INT_MAX ->
    window NUM_BASELINE vals (base_readings s) (base_ct s) ->
    exists s' bs,
      feed s rs = Some (s', bs) /\
      length bs = length rs /\
      length (base_readings s') = Z.to_nat NUM_BASELINE /\
      base_ct s' = base_ct s + Z.of_nat (length rs) /\
      window NUM_BASELINE (rev rs ++ vals) (base_readings s') (base_ct s') /\
      (rs <> [] ->
       last bs = Some (to_int (Zsum (base_readings s')) `quot` NUM_BASELINE)).
Proof.
  induction rs as [|r rs IH]; intros s vals Hlen Hct Hmax Hw.
  - exists s, []. cbn. repeat split; auto; try lia. congruence.
  - cbn [length] in Hmax. cbn [feed].
    rewrite baseAvg_spec by (assumption || lia). cbn [mbind option_bind].
    set (s1 := set_base s _ _).
    destruct (IH s1 (r :: vals)) as (s' & bs & F & L & Lb & C & W & V).
    { subst s1. cbn [base_readings set_base]. now rewrite length_insert. }
    { subst s1. cbn [base_ct set_base]. lia. }
    { subst s1. cbn [base_ct set_base]. lia. }
    { subst s1. cbn [base_ct base_readings set_base].
      apply window_step; try assumption. reflexivity. }
    rewrite F. cbn [mbind option_bind]. eexists s', _.
    split; [reflexivity|]. split; [cbn; now rewrite L|].
    split; [exact Lb|].
    split; [rewrite C; subst s1; cbn [base_ct set_base length]; lia|].
    split; [cbn [rev]; now rewrite <- app_assoc|].
    intros _. destruct rs as [|r' rs].
    + cbn in F. injection F as <- <-. reflexivity.
    + destruct bs as [|b' bs]; [discriminate L|].
      rewrite last_cons_cons. apply V. discriminate.
Qed.

(** X1.  [baseAvg] is a sliding window: after 5000 or more consecutive
    calls, from any call count that does not overflow on the way, the
    buffer holds the last 5000 readings and the last call returns their
    truncating mean, as long as their sum fits an [int]. *)
Theorem baseAvg_sliding_window (s : State) (rs : list Z) :
  length (base_readings s) = Z.to_nat NUM_BASELINE ->
  0 <= base_ct s ->
  base_ct s + Z.of_nat (length rs) <= INT_MAX ->
  (5000 <= length rs)%nat ->
  in_int (Zsum (drop (length rs - 5000)%nat rs)) ->
  exists s' bs,
    feed s rs = Some (s', bs) /\
    Zsum (base_readings s') = Zsum (drop (length rs - 5000)%nat rs) /\
    last bs = Some (Zsum (drop (length rs - 5000)%nat rs) `quot` NUM_BASELINE).
Proof.
  intros Hlen Hct Hmax Hn Hfit.
  destruct (feed_window rs s [] Hlen Hct Hmax (window_nil _ _ _))
    as (s' & bs & F & _ & Lb & _ & W & V).
  assert (Hsum : Zsum (base_readings s') = Zsum (drop (length rs - 5000)%nat rs)).
  { rewrite (window_sum NUM_BASELINE (rev rs ++ []) _ _ eq_refl Lb) by
      (try exact W; rewrite app_nil_r, length_rev; exact Hn).
    rewrite app_nil_r. change (Z.to_nat NUM_BASELINE) with 5000%nat.
    rewrite firstn_rev. apply Zsum_rev. }
  exists s', bs. split; [exact F|]. split; [exact Hsum|].
  rewrite V by (intros ->; cbn in Hn; lia).
  rewrite Hsum, to_int_id by exact Hfit. reflexivity.
Qed.

Lemma baseAvg_sliding_window_witness :
  exists s' bs,
    feed started (replicate 5000 700 ++ replicate 5000 800) = Some (s', bs) /\
    last bs = Some 800.
Proof.
  destruct (baseAvg_sliding_window started
              (replicate 5000 700 ++ replicate 5000 800))
    as (s' & bs & F & _ & V).
  - reflexivity.
  - vm_compute. discriminate.
  - vm_compute. discriminate.
  - rewrite length_app, !length_replicate. lia.
  - vm_compute. split; discriminate.
  - exists s', bs. split; [exact F|]. rewrite V. vm_compute. reflexivity.
Defined.

Lemma feed_meas_window (ms : list Z) :
  forall (s : State) (vals : list Z),
    length (measSet s) = Z.to_nat NUM_MEAS ->
    0 <= measCount s ->
    measCount s + Z.of_nat (length ms) <= INT_MAX ->
    window NUM_MEAS vals (measSet s) (measCount s) ->
    exists s' avgs,
      feed_meas s ms = Some (s', avgs) /\
      length avgs = length ms /\
      length (measSet s') = Z.to_nat NUM_MEAS /\
      measCount s' = measCount s + Z.of_nat (length ms) /\
      window NUM_MEAS (rev ms ++ vals) (measSet s') (measCount s') /\
      (ms <> [] ->
       last avgs = Some (to_int (Zsum (measSet s')) `quot` NUM_MEAS) /\
       avgMeasure s' = to_int (Zsum (measSet s')) `quot` NUM_MEAS).
Proof.
  induction ms as [|m ms IH]; intros s vals Hlen Hct Hmax Hw.
  - exists s, []. cbn. repeat split; auto; try lia; congruence.
  - cbn [length] in Hmax. cbn [feed_meas].
    rewrite addMeasurement_spec by (assumption || lia).
    cbn [mbind option_bind].
    set (s1 := set_meas s _ _ _).
    destruct (IH s1 (m :: vals)) as (s' & avgs & F & L & Lb & C & W & V).
    { subst s1. cbn [measSet set_meas]. now rewrite length_insert. }
    { subst s1. cbn [measCount set_meas]. lia. }
    { subst s1. cbn [measCount set_meas]. lia. }
    { subst s1. cbn [measCount measSet set_meas].
      apply window_step; try assumption. reflexivity. }
    rewrite F. cbn [mbind option_bind]. eexists s', _.
    split; [reflexivity|]. split; [cbn; now rewrite L|].
    split; [exact Lb|].
    split; [rewrite C; subst s1; cbn [measCount set_meas length]; lia|].
    split; [cbn [rev]; now rewrite <- app_assoc|].
    intros _. destruct ms as [|m' ms].
    + cbn in F. injection F as <- <-. split; reflexivity.
    + destruct avgs as [|a' avgs]; [discriminate L|].
      rewrite last_cons_cons. apply V. discriminate.
Qed.

(** X2.  [addMeasurement] is a sliding window of 50: after 50 or more
    consecutive calls, from any call count that does not overflow on the
    way, the last call returns (and leaves in [avgMeasure]) the truncating
    mean of the last 50 measurements, as long as their sum fits an
    [int]. *)
Theorem addMeasurement_sliding_window (s : State) (ms : list Z) :
  length (measSet s) = Z.to_nat NUM_MEAS ->
  0 <= measCount s ->
  measCount s + Z.of_nat (length ms) <= INT_MAX ->
  (50 <= length ms)%nat ->
  in_int (Zsum (drop (length ms - 50)%nat ms)) ->
  exists s' avgs,
    feed_meas s ms = Some (s', avgs) /\
    last avgs = Some (Zsum (drop (length ms - 50)%nat ms) `quot` NUM_MEAS) /\
    avgMeasure s' = Zsum (drop (length ms - 50)%nat ms) `quot` NUM_MEAS.
Proof.
  intros Hlen Hct Hmax Hn Hfit.
  destruct (feed_meas_window ms s [] Hlen Hct Hmax (window_nil _ _ _))
    as (s' & avgs & F & _ & Lb & _ & W & V).
  assert (Hsum : Zsum (measSet s') = Zsum (drop (length ms - 50)%nat ms)).
  { rewrite (window_sum NUM_MEAS (rev ms ++ []) _ _ eq_refl Lb) by
      (try exact W; rewrite app_nil_r, length_rev; exact Hn).
    rewrite app_nil_r. change (Z.to_nat NUM_MEAS) with 50%nat.
    rewrite firstn_rev. apply Zsum_rev. }
  exists s', avgs. split; [exact F|].
  destruct V as (V1 & V2); [intros ->; cbn in Hn; lia|].
  rewrite V1, V2, Hsum, to_int_id by exact Hfit. split; reflexivity.
Qed.

Lemma addMeasurement_sliding_window_witness :
  exists s' avgs,
    feed_meas started (replicate 7 0 ++ replicate 50 731) = Some (s', avgs) /\
    last avgs = Some 731.
Proof.
  destruct (addMeasurement_sliding_window started
              (replicate 7 0 ++ replicate 50 731))
    as (s' & avgs & F & V & _).
  - reflexivity.
  - vm_compute. discriminate.
  - vm_compute. discriminate.
  - rewrite length_app, !length_replicate. lia.
  - vm_compute. split; discriminate.
  - exists s', avgs. split; [exact F|]. rewrite V. vm_compute. reflexivity.
Defined.

(** X3.  Steady state: when every slot of the baseline buffer holds [v],
    any number of further readings equal to [v] leaves the buffer as it is
    and each call returns [v]. *)
Theorem baseAvg_steady (s : State) (v : Z) (k : nat) :
  base_readings s = replicate (Z.to_nat NUM_BASELINE) v ->
  in_int (NUM_BASELINE * v) ->
  0 <= base_ct s ->
  base_ct s + Z.of_nat k <= INT_MAX ->
  exists s',
    feed s (replicate k v) = Some (s', replicate k v) /\
    base_readings s' = replicate (Z.to_nat NUM_BASELINE) v /\
    base_ct s' = base_ct s + Z.of_nat k.
Proof.
  intros Hb Hfit. revert s Hb.
  induction k as [|k IH]; intros s Hb Hct Hmax.
  - exists s. cbn. repeat split; auto. lia.
  - cbn [replicate feed].
    rewrite baseAvg_spec
      by (try lia; rewrite Hb; apply length_replicate).
    cbn [mbind option_bind]. rewrite Hb, insert_replicate, Zsum_replicate.
    change (Z.of_nat (Z.to_nat NUM_BASELINE)) with NUM_BASELINE.
    rewrite to_int_id by exact Hfit.
    rewrite Z.mul_comm, Z.quot_mul by discriminate.
    destruct (IH (set_base s (replicate (Z.to_nat NUM_BASELINE) v)
                    (base_ct s + 1))) as (s' & F & B & C).
    { reflexivity. } { cbn. lia. } { cbn. lia. }
    rewrite F. cbn [mbind option_bind]. exists s'.
    split; [reflexivity|]. split; [exact B|].
    rewrite C. cbn [base_ct set_base]. lia.
Qed.

Lemma baseAvg_steady_witness :
  exists s', feed started (replicate 3 725) = Some (s', replicate 3 725).
Proof.
  destruct (baseAvg_steady started 725 3) as (s' & F & _).
  - reflexivity.
  - vm_compute. split; discriminate.
  - vm_compute. discriminate.
  - vm_compute. discriminate.
  - exists s'. exact F.
Defined.

(** X4.  The first pass skips slot 0: from call count 0, the first [k]
    calls, [k] at most 4999, write slots 1 to [k] in order and leave slot
    0 and the slots after [k] as they were; call 5000 is the one that
    writes slot 0: after 4999 readings [rs] and one more reading [r], the
    buffer is [r] followed by [rs]. *)
Theorem baseAvg_first_pass (s : State) :
  length (base_readings s) = Z.to_nat NUM_BASELINE ->
  base_ct s = 0 ->
  (forall rs : list Z,
      (length rs <= 4999)%nat ->
      exists s' bs,
        feed s rs = Some (s', bs) /\
        base_readings s' =
          take 1 (base_readings s) ++ rs
            ++ drop (S (length rs)) (base_readings s)) /\
  (forall (rs : list Z) (r : Z),
      length rs = 4999%nat ->
      exists s' bs,
        feed s (rs ++ [r]) = Some (s', bs) /\
        base_readings s' = r :: rs).
Proof.
  intros Hlen Hct.
  destruct (base_readings s) as [|x0 rest] eqn:Hb;
    [cbn in Hlen; unfold NUM_BASELINE in Hlen; lia|].
  assert (Hrest : length rest = 4999%nat)
    by (cbn in Hlen; unfold NUM_BASELINE in Hlen; lia).
  split.
  - intros rs Hk.
    destruct (feed_fill rs s x0 [] rest) as (s' & bs & F & B & _).
    + exact Hb.
    + rewrite Hct. reflexivity.
    + lia.
    + rewrite Hb. exact Hlen.
    + exists s', bs. split; [exact F|]. rewrite B. reflexivity.
  - intros rs r Hk.
    destruct (feed_fill rs s x0 [] rest) as (s1 & bs1 & F & B & C & _).
    + exact Hb.
    + rewrite Hct. reflexivity.
    + lia.
    + rewrite Hb. exact Hlen.
    + rewrite Hk, (drop_ge rest 4999), app_nil_r in B by lia.
      cbn [app] in B. rewrite Hct, Hk in C.
      rewrite feed_app, F. cbn [mbind option_bind feed].
      rewrite baseAvg_spec.
      * cbn [mbind option_bind]. eexists _, _. split; [reflexivity|].
        cbn [base_readings set_base]. rewrite C, B.
        change ((0 + Z.of_nat 4999 + 1) `rem` NUM_BASELINE) with 0.
        reflexivity.
      * rewrite B. cbn [length]. rewrite Hk. reflexivity.
      * rewrite C. vm_compute. split; congruence.
Qed.

Lemma baseAvg_first_pass_witness :
  (exists s' bs,
      feed started [700; 710] = Some (s', bs) /\
      take 4 (base_readings s') = [725; 700; 710; 725]) /\
  (exists s' bs,
      feed started (replicate 4999 700 ++ [710]) = Some (s', bs) /\
      take 3 (base_readings s') = [710; 700; 700]).
Proof.
  destruct (baseAvg_first_pass started eq_refl eq_refl) as (A & B).
  split.
  - destruct (A [700; 710]) as (s' & bs & F & E); [cbn; lia|].
    exists s', bs. split; [exact F|]. rewrite E. reflexivity.
  - destruct (B (replicate 4999 700) 710) as (s' & bs & F & E);
      [apply length_replicate|].
    exists s', bs. split; [exact F|]. rewrite E. reflexivity.
Defined.

(** ** Bounds on the baseline *)

Lemma Zsum_between (lo hi : Z) (l : list Z) :
  Forall (fun v => lo <= v <= hi) l ->
  Z.of_nat (length l) * lo <= Zsum l <= Z.of_nat (length l) * hi.
Proof.
  induction 1 as [|x l Hx Hl IH]; [cbn; lia|].
  rewrite Zsum_cons. cbn [length]. lia.
Qed.

Lemma Zsum_insert_le (l : list Z) :
  forall (i : nat) (x y : Z), x <= y ->
    Zsum (<[i := x]> l) <= Zsum (<[i := y]> l).
Proof.
  induction l as [|a l IH]; intros i x y Hxy; [reflexivity|].
  destruct i as [|i].
  - change (<[0%nat := x]> (a :: l)) with (x :: l).
    change (<[0%nat := y]> (a :: l)) with (y :: l).
    rewrite !Zsum_cons. lia.
  - change (<[S i := x]> (a :: l)) with (a :: <[i := x]> l).
    change (<[S i := y]> (a :: l)) with (a :: <[i := y]> l).
    rewrite !Zsum_cons. specialize (IH i x y Hxy). lia.
Qed.

(** The mean of 5000 values between [lo] and [hi], computed in an [int]
    that their sum fits, lies between [lo] and [hi]. *)
Lemma mean_between (lo hi : Z) (buf : list Z) :
  length buf = Z.to_nat NUM_BASELINE ->
  INT_MIN `quot` NUM_BASELINE <= lo -> hi <= INT_MAX `quot` NUM_BASELINE ->
  Forall (fun v => lo <= v <= hi) buf ->
  lo <= to_int (Zsum buf) `quot` NUM_BASELINE <= hi.
Proof.
  intros Hlen Hlo Hhi Hall.
  pose proof (Zsum_between lo hi buf Hall) as Hs. rewrite Hlen in Hs.
  change (Z.of_nat (Z.to_nat NUM_BASELINE)) with 5000 in Hs.
  change (INT_MIN `quot` NUM_BASELINE) with (-429496) in Hlo.
  change (INT_MAX `quot` NUM_BASELINE) with 429496 in Hhi.
  rewrite to_int_id by (unfold in_int, INT_MIN, INT_MAX; lia).
  unfold NUM_BASELINE. split.
  - rewrite <- (Z.quot_mul lo 5000) by discriminate.
    apply Z.quot_le_mono; lia.
  - rewrite <- (Z.quot_mul hi 5000) by discriminate.
    apply Z.quot_le_mono; lia.
Qed.

(** X5.  [baseAvg] is monotone in the reading: from the same state, a
    larger reading never gives a smaller baseline (sums within [int]). *)
Theorem baseAvg_monotone (s : State) (r1 r2 : Z) :
  length (base_readings s) = Z.to_nat NUM_BASELINE ->
  0 <= base_ct s < INT_MAX ->
  r1 <= r2 ->
  in_int (Zsum (<[Z.to_nat ((base_ct s + 1) mod NUM_BASELINE) := r1]>
                  (base_readings s))) ->
  in_int (Zsum (<[Z.to_nat ((base_ct s + 1) mod NUM_BASELINE) := r2]>
                  (base_readings s))) ->
  exists s1 b1 s2 b2,
    baseAvg s r1 = Some (s1, b1) /\ baseAvg s r2 = Some (s2, b2) /\ b1 <= b2.
Proof.
  intros Hlen Hct Hr H1 H2.
  rewrite <- Z.rem_mod_nonneg in H1, H2 by (unfold NUM_BASELINE; lia).
  rewrite !baseAvg_spec by assumption.
  eexists _, _, _, _. split; [reflexivity|]. split; [reflexivity|].
  rewrite !to_int_id by assumption.
  apply Z.quot_le_mono; [reflexivity|]. now apply Zsum_insert_le.
Qed.

Lemma baseAvg_monotone_witness :
  exists s1 b1 s2 b2,
    baseAvg started 700 = Some (s1, b1) /\
    baseAvg started 9000 = Some (s2, b2) /\ b1 <= b2.
Proof.
  apply (baseAvg_monotone started 700 9000).
  - reflexivity.
  - vm_compute. split; [discriminate | reflexivity].
  - lia.
  - vm_compute. split; discriminate.
  - vm_compute. split; discriminate.
Defined.

(** In a run whose samples all lie between [lo] and [hi], so does the
    buffer and so does the baseline. *)
Lemma run_between (lo hi : Z) (ins : list Tick) :
  INT_MIN `quot` NUM_BASELINE <= lo -> hi <= INT_MAX `quot` NUM_BASELINE ->
  forall s,
    wf s -> base_ct s + Z.of_nat (length ins) <= INT_MAX ->
    Forall (fun v => lo <= v <= hi) (base_readings s) ->
    lo <= qt_base s <= hi ->
    Forall (fun i => lo <= to_int (measure i) <= hi) ins ->
    exists s' es,
      run s ins = Some (s', es) /\ wf s' /\
      Forall (fun v => lo <= v <= hi) (base_readings s') /\
      lo <= qt_base s' <= hi.
Proof.
  intros Hlo Hhi.
  induction ins as [|i ins IH]; intros s Hwf Hmax Hall Hq Hins.
  - exists s, []. cbn. auto.
  - cbn [length] in Hmax. apply Forall_cons in Hins as [Hi Hins].
    assert (Hct : 0 <= base_ct s < INT_MAX)
      by (destruct Hwf as (_ & _ & ?); lia).
    destruct (loop_spec s i Hwf) as (s1 & t & m & E & Hwf1 & C & A & _);
      [lia|].
    rewrite baseAvg_spec in A by (apply Hwf || exact Hct).
    injection A as A1 _ A3.
    assert (Hall1 : Forall (fun v => lo <= v <= hi) (base_readings s1)).
    { rewrite <- A1. now apply Forall_insert. }
    destruct (IH s1 Hwf1) as (s' & es & R & Hwf' & Hall' & Hq');
      try assumption; [lia | |].
    { rewrite <- A3, A1. apply mean_between; try assumption. apply Hwf1. }
    exists s', ((t, m) :: es). cbn [run]. rewrite E.
    cbn [mbind option_bind]. rewrite R. auto.
Qed.

(** X6.  The baseline stays within the range of what was fed in: in a
    run from the state after [setup], if the seed 725 and every sample lie
    between [lo] and [hi] (within the range whose 5000-fold sum fits an
    [int]), then so does the baseline after the run, and every slot of the
    buffer. *)
Theorem baseline_between (lo hi : Z) (ins : list Tick) :
  INT_MIN `quot` NUM_BASELINE <= lo -> lo <= 725 -> 725 <= hi ->
  hi <= INT_MAX `quot` NUM_BASELINE ->
  Z.of_nat (length ins) <= INT_MAX ->
  Forall (fun i => lo <= to_int (measure i) <= hi) ins ->
  exists s es,
    run started ins = Some (s, es) /\
    lo <= qt_base s <= hi /\
    Forall (fun v => lo <= v <= hi) (base_readings s).
Proof.
  intros Hlo H1 H2 Hhi Hlen Hins.
  destruct (run_between lo hi ins Hlo Hhi started wf_started)
    as (s & es & R & _ & Hall & Hq); try assumption.
  - change (base_readings started) with (replicate 5000 725).
    apply Forall_replicate. lia.
  - change (qt_base started) with 725. lia.
  - exists s, es. auto.
Qed.

Lemma baseline_between_witness :
  exists s es,
    run started (paced [700; 900; 650]) = Some (s, es) /\
    650 <= qt_base s <= 900.
Proof.
  destruct (baseline_between 650 900 (paced [700; 900; 650]))
    as (s & es & R & Hq & _).
  - vm_compute. discriminate.
  - lia.
  - lia.
  - vm_compute. discriminate.
  - vm_compute. discriminate.
  - repeat constructor; vm_compute; discriminate.
  - exists s, es. split; [exact R | exact Hq].
Defined.

(** ** The range of the values written *)

Lemma mean50_between (B : Z) (buf : list Z) :
  length buf = Z.to_nat NUM_MEAS ->
  0 <= B <= INT_MAX `quot` NUM_MEAS ->
  Forall (fun v => 0 <= v <= B) buf ->
  0 <= to_int (Zsum buf) `quot` NUM_MEAS <= B.
Proof.
  intros Hlen HB Hall.
  pose proof (Zsum_between 0 B buf Hall) as Hs. rewrite Hlen in Hs.
  change (Z.of_nat (Z.to_nat NUM_MEAS)) with 50 in Hs.
  change (INT_MAX `quot` NUM_MEAS) with 42949672 in HB.
  rewrite to_int_id by (unfold in_int, INT_MIN, INT_MAX; lia).
  unfold NUM_MEAS. split; [apply Z.quot_pos; lia|].
  apply Z.quot_le_upper_bound; lia.
Qed.

(** [lightAtNear] on values in range: it returns, and the averager, the
    retained brightness and whatever it writes stay in range. *)
Lemma lightAtNear_ranged (B : Z) (s : State) (m : Z) :
  0 <= B <= INT_MAX `quot` NUM_MEAS ->
  length (measSet s) = Z.to_nat NUM_MEAS ->
  0 <= measCount s < INT_MAX ->
  Forall (fun v => 0 <= v <= B) (measSet s) ->
  0 <= m <= B -> 0 <= qt_base s <= B ->
  lastLightMeasure s <= B ->
  Forall (fun w => 0 <= w <= B) (noodle s) ->
  exists s',
    lightAtNear s m = Some s' /\
    Forall (fun v => 0 <= v <= B) (measSet s') /\
    lastLightMeasure s' <= B /\
    Forall (fun w => 0 <= w <= B) (noodle s').
Proof.
  intros HB Hlen Hct Hall Hm Hq HL Hn.
  pose proof HB as HB'.
  change (INT_MAX `quot` NUM_MEAS) with 42949672 in HB'.
  unfold lightAtNear, MIN_OVER_THRESHOLD.
  rewrite (to_int_id (qt_base s + 3))
    by (unfold in_int, INT_MIN, INT_MAX; lia).
  destruct (Z.ltb_spec (qt_base s + 3) m) as [Hnear|Hfar];
    rewrite addMeasurement_spec by assumption;
    cbn [mbind option_bind]; cbv zeta;
    cbn [qt_base lastLightMeasure set_meas set_lastLightMeasure];
    match goal with
    | |- context [to_int (Zsum ?b) `quot` NUM_MEAS] => set (buf := b)
    end;
    (assert (Hbuf : Forall (fun v => 0 <= v <= B) buf)
       by (subst buf; apply Forall_insert; [exact Hall | lia]));
    (assert (Havg : 0 <= to_int (Zsum buf) `quot` NUM_MEAS <= B)
       by (apply mean50_between; try assumption;
           subst buf; now rewrite length_insert));
    set (avg := to_int (Zsum buf) `quot` NUM_MEAS) in *.
  - rewrite (to_int_id (avg - qt_base s))
      by (unfold in_int, INT_MIN, INT_MAX; lia).
    rewrite (to_int_id (qt_base s + 3))
      by (unfold in_int, INT_MIN, INT_MAX; lia).
    destruct (Z.ltb_spec (qt_base s + 3) avg);
      (eexists; split; [reflexivity|]); cbn;
      (split; [exact Hbuf|]); (split; [lia|]);
      [constructor; [lia | exact Hn] | exact Hn].
  - rewrite (to_int_id (avg - qt_base s))
      by (unfold in_int, INT_MIN, INT_MAX; lia).
    rewrite (to_int_id (qt_base s - 3))
      by (unfold in_int, INT_MIN, INT_MAX; lia).
    destruct (Z.ltb_spec (qt_base s - 3) avg);
      (eexists; split; [reflexivity|]); cbn;
      (split; [exact Hbuf|]); (split; [exact HL|]);
      (constructor; [|exact Hn]); [|lia].
    destruct (Z.ltb_spec (lastLightMeasure s) (avg - qt_base s));
      repeat match goal with
        | |- context [?x <? 0] => destruct (Z.ltb_spec x 0)
        end; lia.
Qed.

Lemma loop_ranged (B : Z) (s : State) (i : Tick) :
  255 <= B <= INT_MAX `quot` NUM_BASELINE ->
  ranged B s -> base_ct s < INT_MAX ->
  0 <= to_int (measure i) <= B ->
  exists s' e, loop s i = Some (s', e) /\ ranged B s'.
Proof.
  intros HB (Hwf & Hbase & Hq & Hmeas & HL & Hst & Hn) Hct Hm.
  change (INT_MAX `quot` NUM_BASELINE) with 429496 in HB.
  destruct (loop_step s i Hwf Hct)
    as (s4 & t & s' & m & Es & El & E & Hwf' & C & F).
  destruct (loop_sense_spec s i) as (s4' & t' & Es' & A & _ & _ & _ & _ & L);
    [apply Hwf | destruct Hwf as (_ & _ & ?); lia |].
  rewrite Es in Es'. injection Es' as J1 J2. subst s4' t'.
  rewrite baseAvg_spec in A
    by (try apply Hwf; destruct Hwf as (_ & _ & ?); lia).
  injection A as A1 _ A3.
  destruct L as (L1 & L2 & L3 & L4 & L5 & L6 & L7 & L8).
  destruct F as (F1 & F2 & F3 & F4 & F5).
  assert (Hbase4 : Forall (fun v => 0 <= v <= B) (base_readings s4)).
  { rewrite <- A1. now apply Forall_insert. }
  assert (Hq4 : 0 <= qt_base s4 <= B).
  { rewrite <- A3, A1. apply mean_between; try assumption.
    - destruct Hwf' as (Hl & _). now rewrite F1 in Hl.
    - vm_compute. discriminate.
    - change (INT_MAX `quot` NUM_BASELINE) with 429496. lia. }
  exists s', (t, m). split; [exact E|].
  unfold ranged. split; [exact Hwf'|]. rewrite F1, F3.
  split; [exact Hbase4|]. split; [exact Hq4|].
  unfold loop_light in El.
  destruct (_ <? BASELINE_TIME).
  { injection El as J1 J2. subst s' m. rewrite L1, L4, L5, L8. auto. }
  destruct (_ <? LIGHT_ON_TIME).
  { injection El as J1 J2. subst s' m.
    destruct (lightAtStep_written_range s4) as (v & W & R);
      [rewrite L5; exact Hst|].
    destruct (lightAtStep_frame s4) as (_ & M1 & _ & _ & M4 & _).
    rewrite M1, M4, L1, L4, W, L8.
    split; [exact Hmeas|]. split; [exact HL|].
    split; [apply lightAtStep_steps_range; rewrite L5; exact Hst|].
    constructor; [unfold MINUMUM_BRIGHTNESS in R; lia | exact Hn]. }
  destruct (lightAtNear_ranged B s4 (to_int (measure i)))
    as (s5 & E5 & R1 & R2 & R3); try assumption.
  { change (INT_MAX `quot` NUM_MEAS) with 42949672. lia. }
  { rewrite L1. apply Hwf. }
  { rewrite L2. destruct Hwf as (_ & _ & ?). lia. }
  { now rewrite L1. }
  { now rewrite L4. }
  { now rewrite L8. }
  rewrite E5 in El. cbn [mbind option_bind] in El.
  injection El as J1 J2. subst s5 m.
  destruct (lightAtNear_frame s4 (to_int (measure i)))
    as (s5 & E5' & _ & G1 & _); [rewrite L1; apply Hwf | |].
  { rewrite L2. destruct Hwf as (_ & _ & ?). lia. }
  rewrite E5 in E5'. injection E5' as J. subst s5.
  rewrite G1, L5. auto.
Qed.

Lemma run_ranged (B : Z) (ins : list Tick) :
  255 <= B <= INT_MAX `quot` NUM_BASELINE ->
  forall s,
    ranged B s -> base_ct s + Z.of_nat (length ins) <= INT_MAX ->
    Forall (fun i => 0 <= to_int (measure i) <= B) ins ->
    exists s' es, run s ins = Some (s', es) /\ ranged B s'.
Proof.
  intros HB. induction ins as [|i ins IH]; intros s Hr Hmax Hins.
  - exists s, []. split; [reflexivity | exact Hr].
  - cbn [length] in Hmax. apply Forall_cons in Hins as [Hi Hins].
    destruct (loop_ranged B s i HB Hr) as (s1 & e & E & Hr1);
      [lia | exact Hi |].
    assert (C : base_ct s1 = base_ct s + 1).
    { destruct Hr as (Hwf & _).
      destruct (loop_step s i Hwf) as (? & ? & ? & ? & _ & _ & E' & _ & C & _);
        [lia|]. rewrite E in E'. injection E' as J1 _. rewrite J1. exact C. }
    destruct (IH s1 Hr1) as (s' & es & R & Hr'); [lia | exact Hins |].
    exists s', (e :: es). cbn [run]. rewrite E. cbn [mbind option_bind].
    rewrite R. split; [reflexivity | exact Hr'].
Qed.

Lemma ranged_started (B : Z) : 725 <= B -> ranged B started.
Proof.
  intros HB. unfold ranged. split; [exact wf_started|].
  change (base_readings started) with (replicate 5000 725).
  change (measSet started) with (replicate 50 0).
  change (qt_base started) with 725.
  change (lastLightMeasure started) with 0.
  change (steps started) with 0. change (noodle started) with (@nil Z).
  repeat split; try apply Forall_replicate; try constructor;
    unfold NUM_LIGHT_STEPS; lia.
Qed.

(** X7.  With every sample between 0 and [B] (a bound of at least 725
    whose 5000-fold sum fits an [int]), a run from the state after [setup]
    never hands [analogWrite] a negative value, nor one above [B]. *)
Theorem run_writes_in_range (B : Z) (ins : list Tick) :
  725 <= B <= INT_MAX `quot` NUM_BASELINE ->
  Z.of_nat (length ins) <= INT_MAX ->
  Forall (fun i => 0 <= to_int (measure i) <= B) ins ->
  exists s es,
    run started ins = Some (s, es) /\
    Forall (fun w => 0 <= w <= B) (noodle s).
Proof.
  intros HB Hlen Hins.
  destruct (run_ranged B ins) with (s := started) as (s & es & R & Hr);
    try assumption.
  - lia.
  - apply ranged_started. lia.
  - exists s, es. split; [exact R|]. apply Hr.
Qed.

(* A touch at 6000 ms starts the pulse, which writes 11 and then 13; at
   40000 ms the proximity glow takes over, and the fade-out iteration at
   40010 ms writes 0. *)
Lemma run_writes_in_range_witness :
  exists s es,
    run started [tick_at 0 725; tick_at 6000 900; tick_at 6010 725;
                 tick_at 40000 760; tick_at 40010 725] = Some (s, es) /\
    noodle s = [0; 13; 11] /\
    Forall (fun w => 0 <= w <= 1023) (noodle s).
Proof.
  destruct (run_writes_in_range 1023
              [tick_at 0 725; tick_at 6000 900; tick_at 6010 725;
               tick_at 40000 760; tick_at 40010 725])
    as (s & es & R & W).
  - vm_compute. split; discriminate.
  - vm_compute. discriminate.
  - repeat constructor; vm_compute; discriminate.
  - exists s, es. split; [exact R|]. split; [|exact W].
    destruct (option_case (fun r => noodle r.1)
                (run started [tick_at 0 725; tick_at 6000 900; tick_at 6010 725;
                              tick_at 40000 760; tick_at 40010 725])
                [0; 13; 11]) as (r & R' & N); [vm_compute; reflexivity|].
    rewrite R in R'. injection R' as <-. exact N.
Defined.

(** ** A sustained reading *)

(** In a run, the baseline buffer is the window of the samples. *)
Lemma run_base_window (ins : list Tick) :
  forall (s : State) (vals : list Z),
    wf s -> base_ct s + Z.of_nat (length ins) <= INT_MAX ->
    window NUM_BASELINE vals (base_readings s) (base_ct s) ->
    exists s' es,
      run s ins = Some (s', es) /\ wf s' /\
      base_ct s' = base_ct s + Z.of_nat (length ins) /\
      window NUM_BASELINE
        (rev (map (fun i => to_int (measure i)) ins) ++ vals)
        (base_readings s') (base_ct s').
Proof.
  induction ins as [|i ins IH]; intros s vals Hwf Hmax Hw.
  - exists s, []. cbn. repeat split; try apply Hwf; auto. lia.
  - cbn [length] in Hmax.
    assert (Hct : 0 <= base_ct s < INT_MAX)
      by (destruct Hwf as (_ & _ & ?); lia).
    destruct (loop_spec s i Hwf) as (s1 & t & m & E & Hwf1 & C & A & _);
      [lia|].
    rewrite baseAvg_spec in A by (apply Hwf || exact Hct).
    injection A as A1 _ _.
    destruct (IH s1 (to_int (measure i) :: vals) Hwf1)
      as (s' & es & R & Hwf' & C' & W); [lia | |].
    { rewrite <- A1, C.
      apply window_step; [reflexivity | apply Hwf | lia | exact Hw]. }
    exists s', ((t, m) :: es). cbn [run]. rewrite E.
    cbn [mbind option_bind]. rewrite R.
    split; [reflexivity|]. split; [exact Hwf'|].
    split; [cbn [length]; lia|].
    cbn [map rev]. now rewrite <- app_assoc.
Qed.

(** X8.  A sustained reading stops being a touch: once 5000 consecutive
    iterations, the current one included, have had the same sample [r],
    every baseline slot holds [r], the baseline is [r], the threshold is
    [r + SPREAD], and the iteration does not detect a touch. *)
Theorem sustained_sample_not_touch
  (s : State) (ins : list Tick) (i : Tick) (r : Z) :
  wf s ->
  base_ct s + Z.of_nat (length ins) + 1 <= INT_MAX ->
  (4999 <= length ins)%nat ->
  Forall (fun j => to_int (measure j) = r) (ins ++ [i]) ->
  INT_MIN `quot` NUM_BASELINE <= r <= INT_MAX `quot` NUM_BASELINE ->
  exists s' es m,
    run s (ins ++ [i]) = Some (s', es ++ [(false, m)]) /\
    base_readings s' = replicate (Z.to_nat NUM_BASELINE) r /\
    qt_base s' = r /\ qt_Threshold s' = r + SPREAD.
Proof.
  intros Hwf Hmax Hn Hall Hr.
  change (INT_MIN `quot` NUM_BASELINE) with (-429496) in Hr.
  change (INT_MAX `quot` NUM_BASELINE) with 429496 in Hr.
  assert (H0 : 0 <= base_ct s) by (destruct Hwf as (_ & _ & ?); lia).
  destruct (run_base_window (ins ++ [i]) s [] Hwf)
    as (s' & es & R & Hwf' & C' & W).
  { rewrite length_app. cbn. lia. }
  { apply window_nil. }
  rewrite app_nil_r in W.
  assert (Hbuf : base_readings s' = replicate (Z.to_nat NUM_BASELINE) r).
  { apply (window_const NUM_BASELINE
             (rev (map (fun i => to_int (measure i)) (ins ++ [i])))
             (base_readings s') (base_ct s') r eq_refl).
    - apply Hwf'.
    - rewrite length_rev, length_map, length_app.
      change (Z.to_nat NUM_BASELINE) with 5000%nat. cbn [length]. lia.
    - apply Forall_take, Forall_rev, Forall_map. exact Hall.
    - exact W. }
  rewrite run_app in R.
  destruct (run s ins) as [[s1 es1]|] eqn:R1; [|discriminate].
  cbn [mbind option_bind run] in R.
  destruct (run_defined ins s Hwf) as (s1' & es1' & R1' & Hwf1 & C1 & _);
    [lia|].
  rewrite R1 in R1'. injection R1' as J1 J2. subst s1' es1'.
  destruct (loop_spec s1 i Hwf1)
    as (s2 & t & m & E & _ & C2 & A & T & I & _); [lia|].
  rewrite E in R. cbn [mbind option_bind] in R.
  injection R as J1 J2. subst s2 es.
  rewrite baseAvg_spec in A
    by (try apply Hwf1; destruct Hwf1 as (_ & _ & ?); lia).
  injection A as A1 _ A3. rewrite A1, Hbuf, Zsum_replicate in A3.
  change (Z.of_nat (Z.to_nat NUM_BASELINE)) with 5000 in A3.
  rewrite to_int_id in A3 by (unfold in_int, INT_MIN, INT_MAX; lia).
  unfold NUM_BASELINE in A3.
  rewrite Z.mul_comm, Z.quot_mul in A3 by discriminate.
  assert (Hi : to_int (measure i) = r).
  { apply Forall_app in Hall as [_ Hi].
    now apply Forall_cons in Hi as [Hi _]. }
  rewrite <- A3 in I, T. rewrite Hi in I.
  unfold SPREAD in *.
  rewrite to_int_id in T by (unfold in_int, INT_MIN, INT_MAX; lia).
  unfold isTouch, SPREAD in I.
  rewrite to_int_id in I by (unfold in_int, INT_MIN, INT_MAX; lia).
  destruct (Z.leb_spec (r + 63) r) as [|_]; [lia|]. subst t.
  exists s', es1, m.
  split; [rewrite run_app, R1; cbn [mbind option_bind run]; rewrite E;
          reflexivity|].
  split; [exact Hbuf|]. split; [now rewrite <- A3 | exact T].
Qed.

Lemma sustained_sample_not_touch_witness :
  exists s' es m,
    run started (paced_from 0 (replicate 4999 900) ++ [tick_at 49990 900])
    = Some (s', es ++ [(false, m)]) /\
    qt_base s' = 900.
Proof.
  destruct (sustained_sample_not_touch started
              (paced_from 0 (replicate 4999 900)) (tick_at 49990 900) 900)
    as (s' & es & m & R & _ & Q & _).
  - exact wf_started.
  - unfold paced_from. rewrite length_imap, length_replicate.
    vm_compute. discriminate.
  - unfold paced_from. rewrite length_imap, length_replicate. lia.
  - apply Forall_app. split.
    + apply (imap_measure_Forall (fun v => to_int v = 900)).
      * reflexivity.
      * apply Forall_replicate. reflexivity.
    + repeat constructor.
  - vm_compute. split; discriminate.
  - exists s', es, m. split; [exact R | exact Q].
Defined.

(** ** The pulse animation in closed form *)

Lemma pulse_period_zero (s : State) (q : nat) :
  steps s = 0 -> steps (pulse (300 * q) s) = 0.
Proof.
  intros H0. induction q as [|q IH].
  - rewrite Nat.mul_0_r. exact H0.
  - replace (300 * S q)%nat with ((150 + 150) + 300 * q)%nat by lia.
    rewrite pulse_add.
    destruct (pulse_down (pulse (300 * q) s) 150 IH) as (E & _); [lia|].
    rewrite E. reflexivity.
Qed.

Lemma triangle_mod (q r : nat) :
  (r < 300)%nat ->
  triangle (Z.of_nat (r + 300 * q))
  = if Z.of_nat r <=? 150 then Z.of_nat r else 300 - Z.of_nat r.
Proof.
  intros Hr. unfold triangle, NUM_LIGHT_STEPS.
  replace (Z.of_nat (r + 300 * q)) with (Z.of_nat r + Z.of_nat q * (2 * 150))
    by lia.
  rewrite Z_mod_plus_full, Z.mod_small by lia. reflexivity.
Qed.

Lemma pulse_triangle (s : State) (k : nat) :
  steps s = 0 ->
  steps (pulse k s) = triangle (Z.of_nat k) /\
  ((1 <= k)%nat ->
   written (pulse k s)
   = ((255 - MINUMUM_BRIGHTNESS) * triangle (Z.of_nat k)) `quot` NUM_LIGHT_STEPS
     + MINUMUM_BRIGHTNESS).
Proof.
  intros H0.
  pose proof (Nat.div_mod_eq k 300) as Hk.
  pose proof (Nat.mod_upper_bound k 300) as Hr.
  set (q := (k / 300)%nat) in *. set (r := (k mod 300)%nat) in *.
  assert (Hr' : (r < 300)%nat) by (apply Hr; discriminate). clear Hr.
  replace k with (r + 300 * q)%nat by lia.
  rewrite triangle_mod by exact Hr'. rewrite pulse_add.
  pose proof (pulse_period_zero s q H0) as Hz.
  unfold MINUMUM_BRIGHTNESS, NUM_LIGHT_STEPS.
  change (255 - 10) with 245.
  destruct r as [|r].
  - change (pulse 0 (pulse (300 * q) s)) with (pulse (300 * q) s).
    split; [exact Hz|]. intros Hq.
    destruct q as [|q]; [lia|].
    replace (300 * S q)%nat with ((150 + 150) + 300 * q)%nat by lia.
    rewrite pulse_add.
    destruct (pulse_down (pulse (300 * q) s) 150) as (_ & _ & W);
      [apply pulse_period_zero; exact H0 | lia |].
    rewrite W. reflexivity.
  - destruct (Z.leb_spec (Z.of_nat (S r)) 150) as [Hle|Hgt].
    + destruct (pulse_up (pulse (300 * q) s) r Hz) as (E & _ & W); [lia|].
      split; [exact E | intros _; exact W].
    + destruct (pulse_down (pulse (300 * q) s) (S r - 150) Hz)
        as (E & _ & W); [lia|].
      replace (150 + (S r - 150))%nat with (S r) in E, W by lia.
      replace (150 - Z.of_nat (S r - 150)) with (300 - Z.of_nat (S r))
        in E, W by lia.
      split; [exact E | intros _; exact W].
Qed.

(** X9.  The pulse in closed form: after [k] calls of [lightAtStep] from
    step 0 the step is the triangle of [k] (0 up to 150 and back, period
    300) and, for [k] at least 1, the value written is
    [(255 - MINUMUM_BRIGHTNESS) * step / NUM_LIGHT_STEPS + MINUMUM_BRIGHTNESS]. *)
Theorem pulse_closed_form (s : State) (k : nat) :
  steps s = 0 ->
  steps (pulse k s) = triangle (Z.of_nat k) /\
  ((1 <= k)%nat ->
   written (pulse k s)
   = ((255 - MINUMUM_BRIGHTNESS) * triangle (Z.of_nat k)) `quot` NUM_LIGHT_STEPS
     + MINUMUM_BRIGHTNESS).
Proof. apply pulse_triangle. Qed.

Lemma pulse_closed_form_witness :
  steps (pulse 1000 started) = 100 /\ written (pulse 1000 started) = 173.
Proof.
  destruct (pulse_closed_form started 1000 eq_refl) as (E & W).
  split; [exact E|]. apply W. lia.
Defined.

(** The pulse state after a run is the one reached by as many calls of
    [lightAtStep] as the run had Pulsing iterations. *)
Lemma run_pulse_state (ins : list Tick) :
  forall (s : State) (p : State),
    wf s -> base_ct s + Z.of_nat (length ins) <= INT_MAX ->
    steps s = steps p -> direction s = direction p ->
    exists s' es,
      run s ins = Some (s', es) /\
      steps s' = steps (pulse (pulsing_count es) p) /\
      direction s' = direction (pulse (pulsing_count es) p).
Proof.
  induction ins as [|i ins IH]; intros s p Hwf Hmax Hs Hd.
  - exists s, []. split; [reflexivity|]. split; assumption.
  - cbn [length] in Hmax.
    destruct (loop_step s i Hwf) as (s4 & t & s1 & m & _ & _ & E & Hwf1 & C & _);
      [lia|].
    destruct (loop_pulse_state s i Hwf) as (s1' & t' & m' & E' & P); [lia|].
    rewrite E in E'. injection E' as J1 J2 J3. subst s1' t' m'.
    destruct (pulse_same s p 1 Hs Hd) as (S1 & D1 & _).
    change (pulse 1 s) with (lightAtStep s) in *.
    change (pulse 1 p) with (lightAtStep p) in *.
    destruct (IH s1 (if is_pulsing m then lightAtStep p else p) Hwf1)
      as (s' & es & R & Es & Ed).
    { lia. }
    { destruct m; cbn [is_pulsing]; destruct P as (P1 & P2); congruence. }
    { destruct m; cbn [is_pulsing]; destruct P as (P1 & P2 & ?) || destruct P as (P1 & P2);
        congruence. }
    exists s', ((t, m) :: es). cbn [run]. rewrite E.
    cbn [mbind option_bind]. rewrite R. split; [reflexivity|].
    unfold pulsing_count in *. cbn [List.filter snd].
    destruct (is_pulsing m); [|split; assumption].
    cbn [length]. replace (S (length (List.filter _ es)))
      with (length (List.filter (fun e : bool * Mode => is_pulsing e.2) es) + 1)%nat
      by lia.
    rewrite pulse_add. split; assumption.
Qed.

(** X10.  The animation resumes where it stopped: after any run from the
    state after [setup], whatever else happened in between, the pulse step
    is the triangle of the number of Pulsing iterations so far. *)
Theorem run_pulse_position (ins : list Tick) :
  Z.of_nat (length ins) <= INT_MAX ->
  exists s es,
    run started ins = Some (s, es) /\
    steps s = triangle (Z.of_nat (pulsing_count es)).
Proof.
  intros Hlen.
  destruct (run_pulse_state ins started started wf_started)
    as (s & es & R & Es & _); try reflexivity.
  - change (base_ct started) with 0. lia.
  - exists s, es. split; [exact R|]. rewrite Es.
    apply pulse_triangle. reflexivity.
Qed.

Lemma run_pulse_position_witness :
  exists s es,
    run started [tick_at 0 725; tick_at 6000 900; tick_at 6010 725]
    = Some (s, es) /\
    steps s = triangle (Z.of_nat (pulsing_count es)).
Proof.
  apply (run_pulse_position
           [tick_at 0 725; tick_at 6000 900; tick_at 6010 725]).
  vm_compute. discriminate.
Defined.

(** ** The pulse window across the rollover of [millis()] *)

(** The elapsed-time operand of line 328 against a timestamp stored from
    [millis()] = [T]: the difference modulo 2^32. *)
Lemma elapsed_since (t T : Z) :
  to_ulong (to_ulong t - to_ulong (to_int (to_ulong T))) = to_ulong (t - T).
Proof.
  rewrite to_ulong_to_int. unfold to_ulong.
  rewrite Z.mod_mod by discriminate. now rewrite <- Zminus_mod.
Qed.

(** X11.  The 30-second pulse window is measured modulo 2^32, so it
    survives the rollover of [millis()]: past the settling window, an
    iteration ends in Pulsing exactly when the time since the last touch
    timestamp, taken modulo 2^32, is below [LIGHT_ON_TIME], and in
    ProximityGlow otherwise.  The timestamp is the [millis()] of line 311
    if the iteration itself detects a touch, else the stored one. *)
Theorem pulse_window (s : State) (i : Tick) (T : Z) :
  wf s -> base_ct s < INT_MAX ->
  touchTime s = Some (to_int (to_ulong T)) ->
  BASELINE_TIME <= to_ulong (millis_settle i) ->
  exists s' touch m,
    loop s i = Some (s', (touch, m)) /\
    (m = Pulsing <->
     to_ulong (millis_mode i - (if touch then millis_touch i else T))
     < LIGHT_ON_TIME) /\
    (m = ProximityGlow <->
     LIGHT_ON_TIME
     <= to_ulong (millis_mode i - (if touch then millis_touch i else T))).
Proof.
  intros Hwf Hct HT Hs.
  destruct (loop_spec s i Hwf Hct)
    as (s' & t & m & E & _ & _ & _ & _ & _ & TT & M & _).
  exists s', t, m. split; [exact E|].
  rewrite (touchTime_init_Some s i _ HT) in TT.
  assert (Hv : touchTime_val s'
               = to_int (to_ulong (if t then millis_touch i else T))).
  { unfold touchTime_val. rewrite TT. destruct t; reflexivity. }
  rewrite Hv, elapsed_since in M.
  destruct (Z.ltb_spec (to_ulong (millis_settle i)) BASELINE_TIME); [lia|].
  destruct (Z.ltb_spec
              (to_ulong (millis_mode i - (if t then millis_touch i else T)))
              LIGHT_ON_TIME);
    subst m; split; split; intros; try discriminate; try reflexivity; lia.
Qed.

Lemma pulse_window_witness :
  exists s' touch,
    loop (set_touchTime started (to_int (to_ulong 4294960000)))
         (mkTick 725 0 0 6000 12704)
    = Some (s', (touch, Pulsing)).
Proof.
  destruct (pulse_window
              (set_touchTime started (to_int (to_ulong 4294960000)))
              (mkTick 725 0 0 6000 12704) 4294960000)
    as (s' & touch & m & E & P & _).
  - unfold wf. repeat split; vm_compute; congruence.
  - vm_compute. reflexivity.
  - reflexivity.
  - vm_compute. discriminate.
  - exists s', touch.
    assert (Hm : m = Pulsing).
    { apply P. destruct touch; vm_compute; reflexivity. }
    now subst m.
Defined.

(** ** The call counter *)

Lemma loop_counter_overflow (s : State) (i : Tick) :
  length (base_readings s) = Z.to_nat NUM_BASELINE ->
  base_ct s = INT_MAX ->
  loop s i = None.
Proof.
  intros Hlen Hct. unfold loop, loop_sense, baseAvg.
  cbn [base_ct base_readings set_touchTime]. rewrite Hct.
  change (to_int (INT_MAX + 1) `rem` NUM_BASELINE) with (-3648).
  reflexivity.
Qed.

Lemma run_counter_overflow (n : nat) (ins : list Tick) :
  Z.of_nat n = INT_MAX -> (n < length ins)%nat ->
  run started ins = None.
Proof.
  intros Hn Hlen.
  rewrite <- (take_drop n ins).
  destruct (drop n ins) as [|i rest] eqn:Hd.
  { apply (f_equal length) in Hd. rewrite length_drop in Hd. cbn in Hd. lia. }
  destruct (run_defined (take n ins) started wf_started)
    as (s1 & es1 & R & Hwf & C & _).
  { rewrite length_take. change (base_ct started) with 0. lia. }
  rewrite length_take in C. change (base_ct started) with 0 in C.
  rewrite run_app, R. cbn [mbind option_bind run].
  rewrite loop_counter_overflow; [reflexivity | apply Hwf | lia].
Qed.

(** X12.  The sketch indexes its arrays within bounds for exactly the
    first 2^31 - 1 iterations: a run from the state after [setup] returns
    if and only if it has at most [INT_MAX] iterations.  On the next one
    [base_ct++] wraps to [INT_MIN], [base_ct % NUM_BASELINE] is -3648, and
    the store of line 185 leaves the array. *)
Theorem run_defined_iff (ins : list Tick) :
  (exists s es, run started ins = Some (s, es))
  <-> Z.of_nat (length ins) <= INT_MAX.
Proof.
  split.
  - intros (s & es & R).
    destruct (Z.le_gt_cases (Z.of_nat (length ins)) INT_MAX) as [H|H];
      [exact H|].
    rewrite (run_counter_overflow (Z.to_nat INT_MAX) ins) in R;
      [discriminate | apply Z2Nat.id; discriminate |].
    unfold INT_MAX in *. lia.
  - intros Hlen.
    destruct (run_defined ins started wf_started) as (s & es & R & _).
    + change (base_ct started) with 0. lia.
    + exists s, es. exact R.
Qed.

(** ** The debug flag *)

Lemma loop_debugging (s : State) (i : Tick) :
  wf s -> base_ct s < INT_MAX ->
  exists s' e, loop s i = Some (s', e) /\ wf s' /\
    base_ct s' = base_ct s + 1 /\ debugging s' = debugging s.
Proof.
  intros Hwf Hct.
  destruct (loop_step s i Hwf Hct)
    as (s4 & t & s' & m & Es & El & E & Hwf' & C & _).
  destruct (loop_sense_spec s i) as (s4' & t' & Es' & _ & _ & _ & _ & _ & L);
    [apply Hwf | destruct Hwf as (_ & _ & ?); lia |].
  rewrite Es in Es'. injection Es' as J1 J2. subst s4' t'.
  destruct L as (L1 & L2 & _ & _ & _ & _ & L7 & _).
  exists s', (t, m). split; [exact E|]. split; [exact Hwf'|].
  split; [exact C|].
  unfold loop_light in El.
  destruct (_ <? BASELINE_TIME).
  { injection El as J1 J2. now subst s'. }
  destruct (_ <? LIGHT_ON_TIME).
  { injection El as J1 J2. subst s'.
    destruct (lightAtStep_frame s4) as (_ & _ & _ & _ & _ & D).
    now rewrite D. }
  destruct (lightAtNear_frame s4 (to_int (measure i)))
    as (s5 & E5 & _ & _ & _ & D & _).
  { rewrite L1. apply Hwf. }
  { rewrite L2. destruct Hwf as (_ & _ & ?). lia. }
  rewrite E5 in El. cbn [mbind option_bind] in El.
  injection El as J1 J2. subst s5. now rewrite D.
Qed.

(** X13.  No run changes [debugging]: [checkDebug] returns before the
    code that would toggle it, and nothing else assigns it. *)
Theorem run_keeps_debugging (ins : list Tick) :
  forall s : State,
    wf s -> base_ct s + Z.of_nat (length ins) <= INT_MAX ->
    exists s' es, run s ins = Some (s', es) /\ debugging s' = debugging s.
Proof.
  induction ins as [|i ins IH]; intros s Hwf Hmax.
  - exists s, []. split; reflexivity.
  - cbn [length] in Hmax.
    destruct (loop_debugging s i Hwf) as (s1 & e & E & Hwf1 & C & D); [lia|].
    destruct (IH s1 Hwf1) as (s' & es & R & D'); [lia|].
    exists s', (e :: es). cbn [run]. rewrite E. cbn [mbind option_bind].
    rewrite R. split; [reflexivity | congruence].
Qed.

Lemma run_keeps_debugging_witness :
  exists s' es,
    run started [tick_at 0 725; tick_at 6000 900; tick_at 40000 730]
    = Some (s', es) /\ debugging s' = true.
Proof.
  apply (run_keeps_debugging
           [tick_at 0 725; tick_at 6000 900; tick_at 40000 730] started).
  - exact wf_started.
  - vm_compute. discriminate.
Defined.
